(** * RustChain wallet helper of BoTTube: a shallow embedding and its properties

    The development follows [bottube_static/rustchain_wallet.js].  The first
    part models the pieces of the JavaScript runtime the wallet calls
    (strings, Number-to-string conversion, [parseInt], [JSON.stringify] on
    strings, typed arrays); the second part embeds the wallet functions one
    by one, keeping their names; the theorems come last. *)

From Stdlib Require Import ZArith NArith Bool List Ascii String Lia.
From Stdlib Require Import Strings.Byte.
From stdpp Require Import base gmap strings.

(** ** Characters and strings

    A JavaScript string is a sequence of UTF-16 code units.  The embedding
    covers the strings whose code units are below 256, one [ascii] per code
    unit; [code] is the code unit as a number. *)

Definition code (c : ascii) : N := N_of_ascii c.
Definition chr (n : N) : ascii := ascii_of_N n.

Definition DQUOTE : ascii := chr 34.
Definition BACKSLASH : ascii := chr 92.

(** WhiteSpace and LineTerminator code units below 256: TAB, LF, VT, FF, CR,
    SP and NBSP. *)
Definition is_whitespace (c : ascii) : bool :=
  let n := code c in
  ((9 <=? n) && (n <=? 13) || (n =? 32) || (n =? 160))%N.

Fixpoint trimStart (s : string) : string :=
  match s with
  | EmptyString => EmptyString
  | String c r => if is_whitespace c then trimStart r else s
  end.

Fixpoint trimEnd (s : string) : string :=
  match s with
  | EmptyString => EmptyString
  | String c r =>
      match trimEnd r with
      | EmptyString => if is_whitespace c then EmptyString else String c EmptyString
      | r' => String c r'
      end
  end.

(** [String.prototype.trim] *)
Definition trim (s : string) : string := trimEnd (trimStart s).

(** Lower-casing of one code unit below 256: A-Z and the upper-case letters
    of Latin-1 (U+00C0..U+00DE but the multiplication sign U+00D7). *)
Definition lower_char (c : ascii) : ascii :=
  let n := code c in
  if ((65 <=? n) && (n <=? 90) || (192 <=? n) && (n <=? 222) && negb (n =? 215))%N
  then chr (n + 32) else c.

(** [String.prototype.toLowerCase] *)
Fixpoint toLowerCase (s : string) : string :=
  match s with
  | EmptyString => EmptyString
  | String c r => String (lower_char c) (toLowerCase r)
  end.

(** [s.startsWith(p)] *)
Definition startsWith (s p : string) : bool := String.prefix p s.

(** [s.slice(a, b)] and [s.slice(a)] for indices that are not negative. *)
Definition slice (s : string) (a b : nat) : string := substring a (b - a) s.
Definition slice_from (s : string) (a : nat) : string := substring a (String.length s - a) s.

(** [s.indexOf(p)], with -1 for no occurrence. *)
Definition indexOf (s p : string) : Z :=
  match index 0 p s with
  | Some i => Z.of_nat i
  | None => (-1)%Z
  end.

Fixpoint repeat_char (c : ascii) (n : nat) : string :=
  match n with
  | O => EmptyString
  | S n' => String c (repeat_char c n')
  end.

(** [s.padStart(n, "0")] *)
Definition padStart0 (n : nat) (s : string) : string :=
  repeat_char "0" (n - String.length s) +:+ s.

(** ** Digits in a radix

    [digit_char] is the digit the runtime prints (lower case beyond 9);
    [digit_value] is the value [parseInt] reads off a code unit (either
    case). *)

Definition digit_char (d : N) : ascii :=
  if (d <? 10)%N then chr (48 + d) else chr (87 + d).

Definition digit_value (c : ascii) : option N :=
  let n := code c in
  if ((48 <=? n) && (n <=? 57))%N then Some (n - 48)%N
  else if ((97 <=? n) && (n <=? 122))%N then Some (n - 87)%N
  else if ((65 <=? n) && (n <=? 90))%N then Some (n - 55)%N
  else None.

Definition is_radix_digit (R : N) (c : ascii) : bool :=
  match digit_value c with
  | Some d => (d <? R)%N
  | None => false
  end.

(** The digits of [v] in radix [R], most significant first. *)
Fixpoint to_radix_fuel (R : N) (fuel : nat) (v : N) : string :=
  match fuel with
  | O => EmptyString
  | S fuel' =>
      if (v <? R)%N then String (digit_char v) EmptyString
      else to_radix_fuel R fuel' (v / R) +:+ String (digit_char (v mod R)) EmptyString
  end.

(** [v] has at most [log2 v + 1] digits in any radix from 2 on, so the fuel
    never runs out (lemma [to_radix_unfold]). *)
Definition to_radix (R : N) (v : N) : string :=
  to_radix_fuel R (S (N.to_nat (N.log2 v))) v.

Definition decimal (v : N) : string := to_radix 10 v.

(** The longest prefix of [s] made of radix-[R] digits, and its value. *)
Fixpoint radix_prefix (R : N) (s : string) : string :=
  match s with
  | EmptyString => EmptyString
  | String c r => if is_radix_digit R c then String c (radix_prefix R r) else EmptyString
  end.

Fixpoint radix_value (R : N) (acc : N) (s : string) : N :=
  match s with
  | EmptyString => acc
  | String c r => radix_value R (acc * R + default 0%N (digit_value c)) r
  end.

(** ** Numbers

    A Number is an IEEE-754 double.  The wallet only ever prints Numbers and
    builds them from integers, so a finite non-zero Number is represented by
    what [Number::toString] (ECMA-262) computes first for it: its sign, the
    integer [s] and the exponent [n] such that [s] has [k] decimal digits,
    [s * 10^(n-k)] rounds to the Number, and [k] is as small as possible
    ([s] is then not a multiple of 10).  [2.5] is [Finite false 25 1], [100]
    is [Finite false 1 3], [1e21] is [Finite false 1 22].

    This decimal is the shortest one that reads back as the same double, so
    two doubles never share it.  A double is an integer exactly when the
    decimal is one, that is when [k <= n]; below [2^53] the decimal is the
    double's exact value.  Not every triple stands for a double (a double
    has at most 17 significant digits and a bounded exponent): what is
    proved for every [Finite] with the invariant [wf_Number] holds for every
    double. *)

Inductive Number : Type :=
  | NaN
  | Infinity (neg : bool)
  | Zero (neg : bool)
  | Finite (neg : bool) (s : N) (n : Z).

Definition num_digits (v : N) : Z := Z.of_nat (String.length (decimal v)).

(** The representation invariant of [Finite]. *)
Definition wf_Number (x : Number) : Prop :=
  match x with
  | Finite _ s _ => (0 < s)%N /\ (s mod 10 <> 0)%N
  | _ => True
  end.

Definition Number_isFinite (x : Number) : bool :=
  match x with
  | Zero _ | Finite _ _ _ => true
  | NaN | Infinity _ => false
  end.

(** The integer a Number is, when it is one, read off its decimal (exact
    below [2^53]; beyond, the shortest decimal integer that rounds to the
    double). *)
Definition integer_value (x : Number) : option Z :=
  match x with
  | Zero _ => Some 0%Z
  | Finite neg s n =>
      let k := num_digits s in
      if (k <=? n)%Z
      then Some ((if neg then -1 else 1) * (Z.of_N s * 10 ^ (n - k)))%Z
      else None
  | NaN | Infinity _ => None
  end.

Definition sign_string (neg : bool) : string := if neg then "-" else "".

Definition mantissa (ds : string) : string :=
  match ds with
  | String d (String d' rest) => String d ("." +:+ String d' rest)
  | _ => ds
  end.

(** [Number::toString(x, 10)], case by case as in ECMA-262. *)
Definition Number_toString (x : Number) : string :=
  match x with
  | NaN => "NaN"
  | Zero _ => "0"
  | Infinity neg => sign_string neg +:+ "Infinity"
  | Finite neg s n =>
      let ds := decimal s in
      let k := Z.of_nat (String.length ds) in
      sign_string neg +:+
      (if ((k <=? n) && (n <=? 21))%Z then
         (* the digits of s, then n-k zeros *)
         ds +:+ repeat_char "0" (Z.to_nat (n - k))
       else if ((0 <? n) && (n <=? 21))%Z then
         (* the first n digits, a point, the other k-n digits *)
         substring 0 (Z.to_nat n) ds +:+ "." +:+ substring (Z.to_nat n) (Z.to_nat (k - n)) ds
       else if ((-6 <? n) && (n <=? 0))%Z then
         "0." +:+ repeat_char "0" (Z.to_nat (- n)) +:+ ds
       else
         (* exponent notation: one digit, the others after a point if any *)
         let e := (n - 1)%Z in
         mantissa ds +:+ "e" +:+ (if (e <? 0)%Z then "-" else "+")
           +:+ decimal (Z.to_N (Z.abs e)))
  end.

(** *** From integers to Numbers

    Integers below [2^53] are doubles; their shortest decimal is the integer
    itself without its trailing zeros. *)

Fixpoint strip_zeros (fuel : nat) (v : N) : N :=
  match fuel with
  | O => v
  | S fuel' =>
      if ((0 <? v) && (v mod 10 =? 0))%N then strip_zeros fuel' (v / 10) else v
  end.

Definition significand (v : N) : N := strip_zeros (S (N.to_nat (N.log2 v))) v.

(** A larger integer is rounded to the nearest double, ties to the even
    significand: [Some (m, e)] stands for [m * 2^e] with
    [2^52 <= m < 2^53], [None] for an overflow to infinity. *)
Definition round_binary64 (v : Z) : option (Z * Z) :=
  let e := (Z.log2 v - 52)%Z in
  let q := (v / 2 ^ e)%Z in
  let r := (v mod 2 ^ e)%Z in
  let half := (2 ^ (e - 1))%Z in
  let q' := if ((half <? r) || (r =? half) && Z.odd q)%Z then (q + 1)%Z else q in
  let '(m, e') := if (q' =? 2 ^ 53)%Z then ((2 ^ 52)%Z, (e + 1)%Z) else (q', e) in
  if (971 <? e')%Z then None else Some (m, e').

(** The shortest decimal that rounds to the double [m * 2^e] ([1 <= e]), by
    search over the number of digits [k].  All quantities are scaled by 4 so
    that the midpoints to the neighbouring doubles are integers. *)
Definition shortest_at (m e : Z) (nx k : Z) : option (Z * Z) :=
  let x := (m * 2 ^ e)%Z in
  let lo := (4 * x - (if (m =? 2 ^ 52)%Z then 2 ^ e else 2 * 2 ^ e))%Z in
  let hi := (4 * x + 2 * 2 ^ e)%Z in
  let P := (10 ^ (nx - k))%Z in
  let inside c :=
    let d := (4 * c * P)%Z in
    if Z.even m then ((lo <=? d) && (d <=? hi))%Z else ((lo <? d) && (d <? hi))%Z in
  let dist c := Z.abs (4 * c * P - 4 * x) in
  let c1 := (x / P)%Z in
  let c2 := (c1 + 1)%Z in
  let pick c := if (c =? 10 ^ k)%Z then Some (1%Z, (nx + 1)%Z) else Some (c, nx) in
  match inside c1, inside c2 with
  | true, true =>
      if (dist c1 <? dist c2)%Z then pick c1
      else if (dist c2 <? dist c1)%Z then pick c2
      else if Z.even c1 then pick c1 else pick c2
  | true, false => pick c1
  | false, true => pick c2
  | false, false => None
  end.

Fixpoint shortest_from (m e nx : Z) (k : Z) (fuel : nat) : option (Z * Z) :=
  match fuel with
  | O => None
  | S fuel' =>
      if (nx <? k)%Z then None
      else match shortest_at m e nx k with
           | Some r => Some r
           | None => shortest_from m e nx (k + 1) fuel'
           end
  end.

(** The search always succeeds within 17 digits; the last case is never
    reached. *)
Definition Number_of_big_integer (neg : bool) (v : N) : Number :=
  match round_binary64 (Z.of_N v) with
  | None => Infinity neg
  | Some (m, e) =>
      let x := Z.to_N (m * 2 ^ e) in
      match shortest_from m e (num_digits x) 1 17 with
      | Some (s, n) => Finite neg (Z.to_N s) n
      | None => Finite neg (significand x) (num_digits x)
      end
  end.

(** The Number for the integer of sign [neg] and magnitude [v]. *)
Definition Number_of_integer (neg : bool) (v : N) : Number :=
  if (v =? 0)%N then Zero neg
  else if (v <? 2 ^ 53)%N then Finite neg (significand v) (num_digits v)
  else Number_of_big_integer neg v.

(** [parseInt(string, radix)] on a string, steps as in ECMA-262; the radix
    is an integer (the wallet passes 10 and 16). *)
Definition strip_sign (s : string) : bool * string :=
  match s with
  | String "-" r => (true, r)
  | String "+" r => (false, r)
  | _ => (false, s)
  end.

Definition strip_0x (s : string) : string :=
  match s with
  | String "0" (String "x" r) => r
  | String "0" (String "X" r) => r
  | _ => s
  end.

(** Steps 1 to 14: the sign and the magnitude of the integer read, or
    [None] where [parseInt] answers NaN.  The digits are read exactly
    (ECMA-262 lets an engine approximate a decimal integer beyond its 20th
    significant digit). *)
Definition parseInt_integer (input : string) (radix : N) : option (bool * N) :=
  let '(neg, S1) := strip_sign (trimStart input) in
  if negb (radix =? 0)%N && ((radix <? 2) || (36 <? radix))%N then None
  else
    let R := if (radix =? 0)%N then 10%N else radix in
    let stripPrefix := ((radix =? 0) || (radix =? 16))%N in
    let '(R, S2) :=
      if stripPrefix && (startsWith S1 "0x" || startsWith S1 "0X")
      then (16%N, strip_0x S1) else (R, S1) in
    match radix_prefix R S2 with
    | EmptyString => None
    | Z1 => Some (neg, radix_value R 0 Z1)
    end.

Definition parseInt (input : string) (radix : N) : Number :=
  match parseInt_integer input radix with
  | None => NaN
  | Some (neg, v) => Number_of_integer neg v
  end.

(** Typed arrays: a [Uint8Array] is a list of bytes; storing a Number into
    one converts it with ToUint8 (truncate, then modulo 256). *)
Definition byte_of_Z (z : Z) : byte :=
  default Byte.x00 (Byte.of_N (Z.to_N (z mod 256))).

Definition ToUint8 (x : Number) : byte :=
  match x with
  | Finite neg s n =>
      let k := num_digits s in
      let mag := if (k <=? n)%Z then (Z.of_N s * 10 ^ (n - k))%Z
                 else (Z.of_N s / 10 ^ (k - n))%Z in
      byte_of_Z (if neg then - mag else mag)
  | _ => Byte.x00
  end.

(** [TextEncoder.encode]: UTF-8, for code units below 256. *)
Definition utf8_char (c : ascii) : list byte :=
  let n := Z.of_N (code c) in
  if (n <? 128)%Z then [byte_of_Z n]
  else [byte_of_Z (192 + n / 64); byte_of_Z (128 + n mod 64)].

Fixpoint TextEncoder_encode (s : string) : list byte :=
  match s with
  | EmptyString => []
  | String c r => utf8_char c ++ TextEncoder_encode r
  end.

(** ** Values

    The primitive values a caller can hand to the wallet. *)

Inductive JsValue : Type :=
  | JsUndefined
  | JsNull
  | JsBoolean (b : bool)
  | JsNumber (x : Number)
  | JsString (s : string).

(** [String(v)] *)
Definition ToString (v : JsValue) : string :=
  match v with
  | JsUndefined => "undefined"
  | JsNull => "null"
  | JsBoolean true => "true"
  | JsBoolean false => "false"
  | JsNumber x => Number_toString x
  | JsString s => s
  end.

Definition ToBoolean (v : JsValue) : bool :=
  match v with
  | JsUndefined | JsNull => false
  | JsBoolean b => b
  | JsNumber (NaN | Zero _) => false
  | JsNumber _ => true
  | JsString EmptyString => false
  | JsString _ => true
  end.

(** [a || b] *)
Definition JsOr (a b : JsValue) : JsValue := if ToBoolean a then a else b.

(** [JSON.stringify] on a string (QuoteJSONString): the short escapes, a
    [\u00xx] escape for the other control characters, everything else as it
    is, between double quotes. *)
Definition escape_char (c : ascii) : string :=
  let n := code c in
  if (n =? 8)%N then "\b"
  else if (n =? 9)%N then "\t"
  else if (n =? 10)%N then "\n"
  else if (n =? 12)%N then "\f"
  else if (n =? 13)%N then "\r"
  else if (n =? 34)%N then String BACKSLASH (String DQUOTE EmptyString)
  else if (n =? 92)%N then String BACKSLASH (String BACKSLASH EmptyString)
  else if (n <? 32)%N then "\u" +:+ padStart0 4 (to_radix 16 n)
  else String c EmptyString.

Fixpoint escape_string (s : string) : string :=
  match s with
  | EmptyString => EmptyString
  | String c r => escape_char c +:+ escape_string r
  end.

Definition JSON_stringify (s : string) : string :=
  String DQUOTE (escape_string s +:+ String DQUOTE EmptyString).

(** ** Exceptions

    [throw new Error(message)] ends a call with [Throw message]; an [async]
    function that throws rejects its promise with the same error, and
    [await] re-throws it, so promises are not modelled apart. *)

Inductive result (A : Type) : Type :=
  | Ok (a : A)
  | Throw (message : string).
Arguments Ok {A} a.
Arguments Throw {A} message.

Definition bind {A B : Type} (r : result A) (k : A -> result B) : result B :=
  match r with
  | Ok a => k a
  | Throw m => Throw m
  end.

Notation "'let*' x ':=' e 'in' k" := (bind e (fun x => k))
  (at level 10, x name, e at level 100, k at level 200).

(** The error taxonomy of the specification, by the message the code
    throws. *)
Definition NoWalletError : string := "no local wallet".
Definition InvalidNonceError : string := "invalid nonce".
Definition NonFiniteAmountError : string := "amount not finite".
Definition CryptoUnavailableError : string := "nacl not loaded".
Definition InvalidSeedError (message : string) : Prop :=
  message = "hex length must be even" \/ message = "invalid hex"
  \/ message = "seed must be 32 bytes".

(** ** The wallet's data *)

Module KeyPair.
(** What [nacl.sign.keyPair.fromSeed] returns. *)
Record t : Type := mk { publicKey : list byte; secretKey : list byte }.
End KeyPair.

Module Wallet.
Record t : Type := mk {
  seedHex : string;
  publicKeyHex : string;
  address : string;
  secretKey : list byte
}.
End Wallet.

Module Payload.
Record t : Type := mk {
  from_address : string;
  public_key : string;
  signature : string;
  nonce : Number;
  memo : string;
  canonical_message : string
}.
End Payload.

(** The part of the browser the wallet reads and writes: [localStorage] and
    the bytes [crypto.getRandomValues] will deliver next. *)
Record World : Type := mkWorld {
  localStorage : gmap string string;
  entropy : nat -> byte
}.

Definition getItem (w : World) (key : string) : JsValue :=
  match localStorage w !! key with
  | Some v => JsString v
  | None => JsNull
  end.

Definition setItem (w : World) (key value : string) : World :=
  mkWorld (<[key := value]> (localStorage w)) (entropy w).

Definition removeItem (w : World) (key : string) : World :=
  mkWorld (delete key (localStorage w)) (entropy w).

(** [crypto.getRandomValues(a)] fills the array [a] with fresh bytes. *)
Definition getRandomValues (w : World) (a : list byte) : list byte * World :=
  (map (entropy w) (seq 0 (length a)),
   mkWorld (localStorage w) (fun i => entropy w (length a + i))).

Definition STORAGE_SEED : string := "rc_wallet_seed_hex".

(** ** The wallet functions *)

(** The loop of [_hexToBytes]: iteration [i] reads [h.slice(i*2, i*2+2)];
    [todo] iterations are left. *)
Fixpoint hexToBytes_loop (h : string) (i todo : nat) : result (list byte) :=
  match todo with
  | O => Ok []
  | S todo' =>
      let b := parseInt (slice h (i * 2) (i * 2 + 2)) 16 in
      if negb (Number_isFinite b) then Throw "invalid hex"
      else let* out := hexToBytes_loop h (S i) todo' in Ok (ToUint8 b :: out)
  end.

Definition _hexToBytes (hex : JsValue) : result (list byte) :=
  let h := toLowerCase (trim (ToString (JsOr hex (JsString "")))) in
  let h := if startsWith h "0x" then slice_from h 2 else h in
  if negb (String.length h mod 2 =? 0)%nat then Throw "hex length must be even"
  else hexToBytes_loop h 0 (String.length h / 2).

Definition byte_hex (b : byte) : string := padStart0 2 (to_radix 16 (Byte.to_N b)).

Fixpoint _bytesToHex (bytes : list byte) : string :=
  match bytes with
  | [] => EmptyString
  | b :: r => byte_hex b +:+ _bytesToHex r
  end.

(** The amount is a Number, as in the TransferIntent of the specification;
    [Number(n)] is the identity on it. *)
Definition _pyFloatRepr (n : Number) : result string :=
  let x := n in
  if negb (Number_isFinite x) then Throw "amount not finite"
  else
    let s := Number_toString x in
    if ((indexOf s "." =? -1) && (indexOf s "e" =? -1) && (indexOf s "E" =? -1))%Z
    then Ok (s +:+ ".0") else Ok s.

Definition json_key (name : string) : string :=
  String DQUOTE (name +:+ String DQUOTE ":").

Definition _canonicalTxJson (fromAddr toAddr : JsValue) (amountRtc : Number)
    (memo nonceStr : JsValue) : result string :=
  let* amount := _pyFloatRepr amountRtc in
  Ok (String.concat "" [
    "{";
    json_key "amount"; amount; ",";
    json_key "from"; JSON_stringify (ToString (JsOr fromAddr (JsString ""))); ",";
    json_key "memo"; JSON_stringify (ToString (JsOr memo (JsString ""))); ",";
    json_key "nonce"; JSON_stringify (ToString (JsOr nonceStr (JsString ""))); ",";
    json_key "to"; JSON_stringify (ToString (JsOr toAddr (JsString "")));
    "}"
  ]).

(** ** Predicates used in the statements *)

Fixpoint string_forall (P : ascii -> bool) (s : string) : bool :=
  match s with
  | EmptyString => true
  | String c r => P c && string_forall P r
  end.

Definition is_decimal_digit (c : ascii) : bool := ((48 <=? code c) && (code c <=? 57))%N.

Definition is_lower_hex (c : ascii) : bool :=
  is_decimal_digit c || ((97 <=? code c) && (code c <=? 102))%N.

Definition has_char (c : ascii) (s : string) : bool :=
  negb (string_forall (fun a => negb (a =? c)%char) s).

(** What a bare JSON number is made of. *)
Definition is_numeric_char (c : ascii) : bool :=
  is_decimal_digit c || (c =? ".")%char || (c =? "e")%char || (c =? "+")%char
  || (c =? "-")%char.

(** The storage format of a seed: 64 lower-case hex digits. *)
Definition is_seed_format (s : string) : bool :=
  (String.length s =? 64)%nat && string_forall is_lower_hex s.

(** ** The float canonicalization rule, in the words of the specification

    "If the value is mathematically integral, render as <int>.0; otherwise
    render the shortest decimal representation that round-trips; non-finite
    amounts are rejected."  The shortest round-trip decimal of a Number is
    its [Number_toString]. *)

Definition Z_decimal (v : Z) : string :=
  sign_string (v <? 0)%Z +:+ decimal (Z.to_N (Z.abs v)).

Definition canonical_amount_spec (x : Number) : result string :=
  if negb (Number_isFinite x) then Throw NonFiniteAmountError
  else match integer_value x with
       | Some v => Ok (Z_decimal v +:+ ".0")
       | None => Ok (Number_toString x)
       end.

(** A Number of magnitude below [10^21]. *)
Definition below_1e21 (x : Number) : bool :=
  match x with
  | Finite _ _ n => (n <=? 21)%Z
  | Zero _ => true
  | NaN | Infinity _ => false
  end.

(** The decimal string of the integer of sign [neg] and magnitude [v]. *)
Definition integer_string (neg : bool) (v : N) : string :=
  sign_string (neg && negb (v =? 0)%N) +:+ decimal v.

(** ** Test doubles

    Stand-ins for the two libraries and a browser state, used to run the
    wallet on concrete inputs. *)

Definition stub_fromSeed (seed : list byte) : KeyPair.t :=
  KeyPair.mk (rev seed) (seed ++ rev seed).

Definition stub_detached (msg secretKey : list byte) : list byte :=
  firstn 64 (secretKey ++ msg ++ repeat Byte.x00 64).

Definition stub_SHA256 (m : list byte) : list byte :=
  firstn 32 (rev m ++ repeat Byte.xff 32).

(** A key pair of the sizes of Ed25519 for every seed. *)
Definition stub_fromSeed32 (seed : list byte) : KeyPair.t :=
  KeyPair.mk (firstn 32 (rev seed ++ repeat Byte.x00 32))
             (firstn 64 (seed ++ rev seed ++ repeat Byte.x00 64)).

Definition empty_world : World :=
  mkWorld ∅ (fun i => byte_of_Z (7 * Z.of_nat i + 3)).

Definition seed_01_hex : string :=
  "0102030405060708090a0b0c0d0e0f101112131415161718191a1b1c1d1e1f20".

Definition seed_zero_hex : string :=
  "0000000000000000000000000000000000000000000000000000000000000000".

(** A store that holds a seed. *)
Definition unlocked_world : World := setItem empty_world STORAGE_SEED seed_01_hex.

Definition seed_0g : string :=
  "0g00000000000000000000000000000000000000000000000000000000000000".

Definition seed_01 : string :=
  "0x0102030405060708090A0B0C0D0E0F101112131415161718191a1b1c1d1e1f20".

(** ** The canonical message, in the words of the specification

    {"amount":<amount>,"from":"<address>","memo":"<memo>","nonce":"<nonce>","to":"<to>"}
    with the four strings JSON-escaped between their quotes and no
    whitespace. *)

Definition quoted (s : string) : string := String DQUOTE (s +:+ String DQUOTE "").

Definition wire_shape (amount from memo nonce to : string) : string :=
  "{" +:+ quoted "amount" +:+ ":" +:+ amount
  +:+ "," +:+ quoted "from" +:+ ":" +:+ quoted (escape_string from)
  +:+ "," +:+ quoted "memo" +:+ ":" +:+ quoted (escape_string memo)
  +:+ "," +:+ quoted "nonce" +:+ ":" +:+ quoted (escape_string nonce)
  +:+ "," +:+ quoted "to" +:+ ":" +:+ quoted (escape_string to)
  +:+ "}".

(** ** The address, in the words of the specification

    "RTC" followed by the first 40 lower-case hex characters, that is the
    first 20 bytes, of the SHA-256 of the public key. *)

Definition derive (sha256 : list byte -> list byte) (publicKey : list byte) : string :=
  "RTC" +:+ _bytesToHex (firstn 20 (sha256 publicKey)).

(** ** Reading a JSON string back

    [unescape_first] reads one character off the text between the quotes of
    a JSON string, undoing [escape_char]; it is used to show that the
    canonical message can be read in one way only. *)

Definition unescape_first (s : string) : option (ascii * string) :=
  match s with
  | EmptyString => None
  | String c r =>
      if (code c =? 92)%N then
        match r with
        | String e r' =>
            if (e =? "b")%char then Some (chr 8, r')
            else if (e =? "t")%char then Some (chr 9, r')
            else if (e =? "n")%char then Some (chr 10, r')
            else if (e =? "f")%char then Some (chr 12, r')
            else if (e =? "r")%char then Some (chr 13, r')
            else if (code e =? 34)%N then Some (DQUOTE, r')
            else if (code e =? 92)%N then Some (BACKSLASH, r')
            else if (e =? "u")%char then
              match r' with
              | String h1 (String h2 (String h3 (String h4 r''))) =>
                  Some (chr (radix_value 16 0
                               (String h1 (String h2 (String h3 (String h4 ""))))),
                        r'')
              | _ => None
              end
            else None
        | EmptyString => None
        end
      else if (code c =? 34)%N then None
      else Some (c, r)
  end.

(** The seed slot is empty or holds 64 lower-case hex digits. *)
Definition slot_ok (w : World) : Prop :=
  match localStorage w !! STORAGE_SEED with
  | None => True
  | Some s => is_seed_format s = true
  end.

(** ** The page scripts: path prefix

    [getMeta] and [prefixPath] are the helpers of the bootstrap script,
    [getPrefix] the one of the footer counters.  Of the document they read
    the [meta] elements only: [metas] maps the name of a meta element of the
    page to its [content] attribute, [None] when the element has none.  The
    names looked up are the constants of the scripts, which hold no quote. *)

Record Document : Type := mkDocument {
  metas : gmap string (option string)
}.

(** [m.getAttribute("content")]: a string, or null. *)
Definition getAttribute_content (attr : option string) : JsValue :=
  match attr with
  | Some s => JsString s
  | None => JsNull
  end.

(** [s.endsWith(p)] *)
Definition endsWith (s p : string) : bool :=
  (String.length p <=? String.length s)%nat
  && (substring (String.length s - String.length p) (String.length p) s =? p)%string.

(** [s.slice(0, -1)] *)
Definition slice_drop_last (s : string) : string :=
  substring 0 (String.length s - 1) s.

Definition getMeta (document : Document) (name : string) : string :=
  match metas document !! name with
  | Some attr => ToString (JsOr (getAttribute_content attr) (JsString ""))
  | None => ""
  end.

Definition prefixPath (document : Document) (path : JsValue) : string :=
  let p := getMeta document "bt-prefix" in
  let p := if endsWith p "/" then slice_drop_last p else p in
  if negb (ToBoolean path) then p
  else p +:+ ToString path.

Definition getPrefix (document : Document) : string :=
  let p := match metas document !! "bt-prefix" with
           | Some attr => ToString (JsOr (getAttribute_content attr) (JsString ""))
           | None => ""
           end in
  let p := if endsWith p "/" then slice_drop_last p else p in
  p.

(** A page whose prefix meta holds [content]. *)
Definition page_with_prefix (content : string) : Document :=
  mkDocument {[ "bt-prefix" := Some content ]}.

(** ** The page scripts: formatting a count

    [fmt] of the footer counters compares Numbers, rounds one down and, for
    the large ones, divides and prints with one decimal.  Comparison and
    [Math.floor] are read off the decimals of the Numbers: rounding to a
    double is monotone and the integers up to [2^53] are doubles, so two
    doubles compare as their shortest decimals do, and a double that is no
    integer lies between the same two integers as its decimal. *)

(** The decimal of a finite Number as [significand * 10^exponent]. *)
Definition Number_significand (x : Number) : Z :=
  match x with
  | Finite neg s _ => if neg then - Z.of_N s else Z.of_N s
  | _ => 0%Z
  end.

Definition Number_exponent (x : Number) : Z :=
  match x with
  | Finite _ s n => (n - num_digits s)%Z
  | _ => 0%Z
  end.

(** [x >= y] *)
Definition Number_ge (x y : Number) : bool :=
  match x, y with
  | NaN, _ | _, NaN => false
  | Infinity false, _ => true
  | _, Infinity true => true
  | Infinity true, _ => false
  | _, Infinity false => false
  | _, _ =>
      let m := Z.min (Number_exponent x) (Number_exponent y) in
      (Number_significand y * 10 ^ (Number_exponent y - m)
       <=? Number_significand x * 10 ^ (Number_exponent x - m))%Z
  end.

(** [Math.floor(x)] *)
Definition Math_floor (x : Number) : Number :=
  match x with
  | Finite neg s n =>
      let k := num_digits s in
      if (k <=? n)%Z then x
      else
        let t := (s / 10 ^ Z.to_N (k - n))%N in
        if neg then Number_of_integer true (t + 1) else Number_of_integer false t
  | _ => x
  end.

Section FooterCounters.

(** What is left to the runtime: reading a string as a Number, and
    [(a / b).toFixed(1)], the quotient of two doubles printed with one
    decimal. *)
Variable StringToNumber : string -> Number.
Variable div_toFixed1 : Number -> Number -> string.

(** [Number(v)] *)
Definition ToNumber (v : JsValue) : Number :=
  match v with
  | JsUndefined => NaN
  | JsNull => Zero false
  | JsBoolean true => Finite false 1 1
  | JsBoolean false => Zero false
  | JsNumber x => x
  | JsString s => StringToNumber s
  end.

Definition fmt (n : JsValue) : string :=
  let n := ToNumber n in
  if negb (Number_isFinite n) then "--"
  else if Number_ge n (Finite false 1 7) then div_toFixed1 n (Finite false 1 7) +:+ "M"
  else if Number_ge n (Finite false 1 4) then div_toFixed1 n (Finite false 1 4) +:+ "K"
  else Number_toString (Math_floor n).

End FooterCounters.

Section WalletFunctions.

(** The two libraries the wallet calls: TweetNaCl, which the page may have
    failed to load, and the SHA-256 of WebCrypto. *)
Variable nacl_loaded : bool.
Variable nacl_sign_keyPair_fromSeed : list byte -> KeyPair.t.
Variable nacl_sign_detached : list byte -> list byte -> list byte.
Variable SHA256 : list byte -> list byte.

Definition _sha256Hex (bytes : list byte) : string := _bytesToHex (SHA256 bytes).

Definition _walletFromSeedHex (seedHex : JsValue) : result Wallet.t :=
  if negb nacl_loaded then Throw "nacl not loaded"
  else
    let* seed := _hexToBytes seedHex in
    if negb (length seed =? 32)%nat then Throw "seed must be 32 bytes"
    else
      let kp := nacl_sign_keyPair_fromSeed seed in
      let pubHex := _bytesToHex (KeyPair.publicKey kp) in
      let addr := "RTC" +:+ slice (_sha256Hex (KeyPair.publicKey kp)) 0 40 in
      Ok (Wallet.mk (_bytesToHex seed) pubHex addr (KeyPair.secretKey kp)).

Definition getSeedHex (w : World) : string :=
  trim (ToString (JsOr (getItem w STORAGE_SEED) (JsString ""))).

(** [null] is [None]. *)
Definition getWallet (w : World) : result (option Wallet.t) :=
  let seedHex := getSeedHex w in
  if negb (ToBoolean (JsString seedHex)) then Ok None
  else let* wallet := _walletFromSeedHex (JsString seedHex) in Ok (Some wallet).

Definition generateWallet (w : World) : result Wallet.t * World :=
  let seed := repeat Byte.x00 32 in
  let '(seed, w) := getRandomValues w seed in
  let seedHex := _bytesToHex seed in
  let w := setItem w STORAGE_SEED seedHex in
  (_walletFromSeedHex (JsString seedHex), w).

Definition importSeed (w : World) (seedHex : JsValue) : result Wallet.t * World :=
  match _hexToBytes seedHex with
  | Throw m => (Throw m, w)
  | Ok seed =>
      if negb (length seed =? 32)%nat then (Throw "seed must be 32 bytes", w)
      else
        let normalized := _bytesToHex seed in
        let w := setItem w STORAGE_SEED normalized in
        (_walletFromSeedHex (JsString normalized), w)
  end.

Definition clearWallet (w : World) : World := removeItem w STORAGE_SEED.

Definition signTransfer (w : World) (toAddr : JsValue) (amountRtc : Number)
    (memo nonceInt : JsValue) : result Payload.t :=
  let* wallet := getWallet w in
  match wallet with
  | None => Throw "no local wallet"
  | Some wallet =>
      let nonceStr := Number_toString (parseInt (ToString nonceInt) 10) in
      if negb (ToBoolean (JsString nonceStr)) || (nonceStr =? "NaN")%string
      then Throw "invalid nonce"
      else
        let* msg := _canonicalTxJson (JsString (Wallet.address wallet)) toAddr
                      amountRtc memo (JsString nonceStr) in
        let msgBytes := TextEncoder_encode msg in
        let sigBytes := nacl_sign_detached msgBytes (Wallet.secretKey wallet) in
        Ok (Payload.mk (Wallet.address wallet) (Wallet.publicKeyHex wallet)
              (_bytesToHex sigBytes) (parseInt nonceStr 10)
              (ToString (JsOr memo (JsString ""))) msg)
  end.


(** The two calls that write a seed, and a history of such calls. *)
Inductive WalletOp : Type :=
  | OpGenerate
  | OpImport (seedHex : JsValue).

Definition perform (w : World) (op : WalletOp) : result Wallet.t * World :=
  match op with
  | OpGenerate => generateWallet w
  | OpImport seedHex => importSeed w seedHex
  end.

Definition run_ops (w : World) (ops : list WalletOp) : World :=
  fold_left (fun w op => snd (perform w op)) ops w.

(** The three calls that change the store, and a history of them. *)
Inductive StoreOp : Type :=
  | DoGenerate
  | DoImport (seedHex : JsValue)
  | DoClear.

Definition apply_op (w : World) (op : StoreOp) : World :=
  match op with
  | DoGenerate => snd (generateWallet w)
  | DoImport seedHex => snd (importSeed w seedHex)
  | DoClear => clearWallet w
  end.

Definition apply_ops (w : World) (ops : list StoreOp) : World :=
  fold_left apply_op ops w.

(** * Properties *)

(** ** Strings *)

Lemma app_cons (a : ascii) (s t : string) : String a s +:+ t = String a (s +:+ t).
Proof. reflexivity. Qed.

Lemma app_empty_l (s : string) : "" +:+ s = s.
Proof. reflexivity. Qed.

Lemma app_empty_r (s : string) : s +:+ "" = s.
Proof. induction s as [|a s IH]; [reflexivity|]. rewrite app_cons, IH. reflexivity. Qed.

Lemma app_assoc3 (s t u : string) : (s +:+ t) +:+ u = s +:+ (t +:+ u).
Proof.
  induction s as [|a s IH]; [reflexivity|].
  rewrite !app_cons, IH. reflexivity.
Qed.

Lemma string_length_app (s t : string) :
  String.length (s +:+ t) = (String.length s + String.length t)%nat.
Proof.
  induction s as [|a s IH]; [reflexivity|].
  rewrite app_cons. simpl. rewrite IH. reflexivity.
Qed.

Lemma length_repeat_char (c : ascii) (n : nat) : String.length (repeat_char c n) = n.
Proof. induction n as [|n IH]; simpl; [reflexivity|]. rewrite IH. reflexivity. Qed.

Lemma repeat_char_snoc (c : ascii) (n : nat) :
  repeat_char c n +:+ String c "" = repeat_char c (S n).
Proof.
  induction n as [|n IH]; [reflexivity|].
  change (repeat_char c (S n)) with (String c (repeat_char c n)).
  rewrite app_cons, IH. reflexivity.
Qed.

Lemma string_forall_app (P : ascii -> bool) (s t : string) :
  string_forall P (s +:+ t) = string_forall P s && string_forall P t.
Proof.
  induction s as [|a s IH]; [reflexivity|].
  rewrite app_cons. simpl. rewrite IH. apply andb_assoc.
Qed.

Lemma string_forall_impl (P Q : ascii -> bool) (s : string) :
  (forall c, P c = true -> Q c = true) ->
  string_forall P s = true -> string_forall Q s = true.
Proof.
  intros HPQ. induction s as [|a s IH]; simpl; [reflexivity|].
  intros [Ha Hs]%andb_prop. rewrite (HPQ _ Ha), (IH Hs). reflexivity.
Qed.

Lemma string_forall_repeat (P : ascii -> bool) (c : ascii) (n : nat) :
  P c = true -> string_forall P (repeat_char c n) = true.
Proof. intros Hc. induction n as [|n IH]; simpl; [reflexivity|]. rewrite Hc, IH. reflexivity. Qed.

Lemma string_forall_substring (P : ascii -> bool) (s : string) (a b : nat) :
  string_forall P s = true -> string_forall P (substring a b s) = true.
Proof.
  revert a b. induction s as [|c s IH]; intros a b Hs.
  - destruct a, b; reflexivity.
  - simpl in Hs. apply andb_prop in Hs as [Hc Hs].
    destruct a as [|a].
    + destruct b as [|b]; simpl; [reflexivity|]. rewrite Hc. apply IH, Hs.
    + simpl. apply IH, Hs.
Qed.

(** [s.indexOf(c)] is -1 exactly when no code unit of [s] is [c]. *)
Lemma indexOf_char (c : ascii) (s : string) :
  (indexOf s (String c "") =? -1)%Z = string_forall (fun a => negb (a =? c)%char) s.
Proof.
  unfold indexOf.
  assert (H : forall s, match index 0 (String c "") s with
                        | Some _ => false
                        | None => true
                        end = string_forall (fun a => negb (a =? c)%char) s).
  { clear s. induction s as [|a s IH]; [reflexivity|].
    simpl. destruct (ascii_dec c a) as [->|Hne].
    - rewrite Ascii.eqb_refl. simpl. destruct s; reflexivity.
    - assert (Hb : (a =? c)%char = false) by (apply Ascii.eqb_neq; congruence).
      rewrite Hb. simpl. rewrite <- IH.
      destruct (index 0 (String c "") s); reflexivity. }
  rewrite <- H. destruct (index 0 (String c "") s); [|reflexivity].
  apply Z.eqb_neq. lia.
Qed.

(** Trimming and lower-casing leave a string of hex digits alone. *)
Lemma is_lower_hex_not_space (c : ascii) : is_lower_hex c = true -> is_whitespace c = false.
Proof. destruct c as [[] [] [] [] [] [] [] []]; vm_compute; congruence. Qed.

Lemma is_lower_hex_lower (c : ascii) : is_lower_hex c = true -> lower_char c = c.
Proof. destruct c as [[] [] [] [] [] [] [] []]; vm_compute; congruence. Qed.

Lemma trimStart_id (s : string) :
  string_forall (fun c => negb (is_whitespace c)) s = true -> trimStart s = s.
Proof. destruct s as [|c s]; simpl; [reflexivity|]. destruct (is_whitespace c); [discriminate|reflexivity]. Qed.

Lemma trimEnd_id (s : string) :
  string_forall (fun c => negb (is_whitespace c)) s = true -> trimEnd s = s.
Proof.
  induction s as [|c s IH]; simpl; [reflexivity|].
  intros [Hc Hs]%andb_prop. rewrite (IH Hs).
  destruct s; [|reflexivity]. destruct (is_whitespace c); [discriminate|reflexivity].
Qed.

Lemma trim_id (s : string) :
  string_forall (fun c => negb (is_whitespace c)) s = true -> trim s = s.
Proof. intros H. unfold trim. rewrite (trimStart_id _ H). apply trimEnd_id, H. Qed.

Lemma trim_hex (s : string) : string_forall is_lower_hex s = true -> trim s = s.
Proof.
  intros H. apply trim_id. revert H. apply string_forall_impl.
  intros c Hc. rewrite (is_lower_hex_not_space _ Hc). reflexivity.
Qed.

Lemma toLowerCase_hex (s : string) : string_forall is_lower_hex s = true -> toLowerCase s = s.
Proof.
  induction s as [|c s IH]; simpl; [reflexivity|].
  intros [Hc Hs]%andb_prop. rewrite (is_lower_hex_lower _ Hc), (IH Hs). reflexivity.
Qed.

(** ** Digits *)

Lemma N_below_16 (d : N) :
  (d < 16)%N ->
  In d [0; 1; 2; 3; 4; 5; 6; 7; 8; 9; 10; 11; 12; 13; 14; 15]%N.
Proof. simpl. lia. Qed.

Ltac small_digit d H :=
  apply N_below_16 in H; simpl in H;
  repeat (destruct H as [<-|H]; [try reflexivity|]); try contradiction.


Lemma digit_char_decimal (d : N) : (d < 10)%N -> is_decimal_digit (digit_char d) = true.
Proof. intros H. assert (H' : (d < 16)%N) by lia. small_digit d H'; lia. Qed.


Lemma log2_div_lt (R v : N) : (2 <= R)%N -> (R <= v)%N -> (N.log2 (v / R) < N.log2 v)%N.
Proof.
  intros HR Hv.
  assert (Hq : (0 < v / R)%N) by (apply N.div_str_pos; lia).
  assert (Hle : (2 * (v / R) <= v)%N).
  { pose proof (N.Div0.mul_div_le v R). nia. }
  apply N.log2_le_mono in Hle. rewrite N.log2_double in Hle by assumption. lia.
Qed.

Lemma to_radix_fuel_enough (R : N) (f1 f2 : nat) (v : N) :
  (2 <= R)%N -> (N.to_nat (N.log2 v) < f1)%nat -> (N.to_nat (N.log2 v) < f2)%nat ->
  to_radix_fuel R f1 v = to_radix_fuel R f2 v.
Proof.
  intros HR. revert f2 v.
  induction f1 as [|f1 IH]; intros f2 v H1 H2; [lia|].
  destruct f2 as [|f2]; [lia|]. simpl.
  destruct (N.ltb_spec v R) as [Hlt|Hge]; [reflexivity|].
  pose proof (log2_div_lt R v HR Hge).
  rewrite (IH f2 (v / R)%N) by lia. reflexivity.
Qed.

(** The printing equation: the fuel is always enough. *)
Lemma to_radix_unfold (R v : N) :
  (2 <= R)%N ->
  to_radix R v =
    if (v <? R)%N then String (digit_char v) ""
    else to_radix R (v / R) +:+ String (digit_char (v mod R)) "".
Proof.
  intros HR. unfold to_radix at 1. simpl.
  destruct (N.ltb_spec v R) as [Hlt|Hge]; [reflexivity|].
  pose proof (log2_div_lt R v HR Hge).
  unfold to_radix. rewrite (to_radix_fuel_enough R _ (S (N.to_nat (N.log2 (v / R)))) (v / R)%N) by lia.
  reflexivity.
Qed.

Lemma decimal_unfold (v : N) :
  decimal v =
    if (v <? 10)%N then String (digit_char v) ""
    else decimal (v / 10) +:+ String (digit_char (v mod 10)) "".
Proof. apply to_radix_unfold. lia. Qed.

Lemma decimal_digits (v : N) : string_forall is_decimal_digit (decimal v) = true.
Proof.
  induction (N.lt_wf_0 v) as [v _ IH].
  rewrite decimal_unfold. destruct (N.ltb_spec v 10) as [Hlt|Hge].
  - simpl. rewrite digit_char_decimal by assumption. reflexivity.
  - rewrite string_forall_app, IH by (apply N.div_lt; lia). simpl.
    rewrite digit_char_decimal by (apply N.mod_lt; lia). reflexivity.
Qed.

Lemma decimal_length_pos (v : N) : (1 <= String.length (decimal v))%nat.
Proof.
  rewrite decimal_unfold. destruct (v <? 10)%N; simpl; [lia|].
  rewrite string_length_app. simpl. lia.
Qed.

Lemma decimal_not_empty (v : N) : decimal v <> "".
Proof. pose proof (decimal_length_pos v) as H. intros E. rewrite E in H. simpl in H. lia. Qed.

Lemma decimal_mul10 (v : N) : (0 < v)%N -> decimal (10 * v) = decimal v +:+ "0".
Proof.
  intros Hv. rewrite (decimal_unfold (10 * v)).
  destruct (N.ltb_spec (10 * v) 10) as [Hlt|Hge]; [lia|].
  replace (10 * v / 10)%N with v by (rewrite N.mul_comm, N.div_mul; lia).
  replace (10 * v mod 10)%N with 0%N by (rewrite N.mul_comm, N.Div0.mod_mul; lia).
  reflexivity.
Qed.

Lemma decimal_mul_pow10 (v : N) (j : nat) :
  (0 < v)%N -> decimal (v * 10 ^ N.of_nat j) = decimal v +:+ repeat_char "0" j.
Proof.
  intros Hv. induction j as [|j IH].
  - simpl. rewrite N.mul_1_r, app_empty_r. reflexivity.
  - rewrite Nat2N.inj_succ, N.pow_succ_r'.
    replace (v * (10 * 10 ^ N.of_nat j))%N with (10 * (v * 10 ^ N.of_nat j))%N by lia.
    rewrite decimal_mul10, IH, app_assoc3, repeat_char_snoc; [reflexivity|].
    assert (0 < 10 ^ N.of_nat j)%N by (apply N.neq_0_lt_0, N.pow_nonzero; lia). nia.
Qed.

Lemma decimal_length_bound (d : nat) (v : N) :
  (v < 10 ^ N.of_nat (S d))%N -> (String.length (decimal v) <= S d)%nat.
Proof.
  revert v. induction d as [|d IH]; intros v Hv; rewrite decimal_unfold.
  - change (10 ^ N.of_nat 1)%N with 10%N in Hv.
    destruct (N.ltb_spec v 10); [simpl; lia|lia].
  - destruct (N.ltb_spec v 10) as [Hlt|Hge]; [simpl; lia|].
    rewrite string_length_app. simpl.
    assert (v / 10 < 10 ^ N.of_nat (S d))%N.
    { apply N.Div0.div_lt_upper_bound.
      rewrite (Nat2N.inj_succ (S d)), N.pow_succ_r' in Hv. exact Hv. }
    specialize (IH _ H). lia.
Qed.




(** ** Numbers *)

Lemma strip_zeros_decimal (fuel : nat) (v : N) :
  exists j, decimal v = decimal (strip_zeros fuel v) +:+ repeat_char "0" j.
Proof.
  revert v. induction fuel as [|fuel IH]; intros v.
  - exists 0%nat. simpl. rewrite app_empty_r. reflexivity.
  - simpl. destruct (N.ltb_spec 0 v) as [Hpos|Hz]; simpl;
      [|exists 0%nat; simpl; rewrite app_empty_r; reflexivity].
    destruct (N.eqb_spec (v mod 10) 0) as [Hmod|Hmod];
      [|exists 0%nat; simpl; rewrite app_empty_r; reflexivity].
    destruct (IH (v / 10)%N) as [j Hj]. exists (S j).
    assert (Hv : v = (10 * (v / 10))%N) by (pose proof (N.div_mod' v 10); lia).
    rewrite Hv at 1. rewrite decimal_mul10 by lia.
    rewrite Hj, app_assoc3, repeat_char_snoc. reflexivity.
Qed.

Lemma significand_decimal (v : N) :
  exists j, decimal v = decimal (significand v) +:+ repeat_char "0" j.
Proof. apply strip_zeros_decimal. Qed.

Lemma strip_zeros_wf (fuel : nat) (v : N) :
  (0 < v)%N -> (N.to_nat (N.log2 v) < fuel)%nat ->
  (0 < strip_zeros fuel v)%N /\ (strip_zeros fuel v mod 10 <> 0)%N.
Proof.
  revert v. induction fuel as [|fuel IH]; intros v Hv Hfuel; [lia|].
  simpl. destruct (N.ltb_spec 0 v) as [_|]; [|lia]. simpl.
  destruct (N.eqb_spec (v mod 10) 0) as [Hmod|Hmod]; [|split; assumption].
  assert (Hge : (10 <= v)%N) by (pose proof (N.div_mod' v 10); lia).
  pose proof (log2_div_lt 10 v ltac:(lia) Hge).
  apply IH; [apply N.div_str_pos; lia|lia].
Qed.

(** The Number of an integer below [2^53] satisfies the invariant. *)
Lemma Number_of_integer_wf (neg : bool) (v : N) :
  (v < 2 ^ 53)%N -> wf_Number (Number_of_integer neg v).
Proof.
  intros Hv. unfold Number_of_integer.
  destruct (N.eqb_spec v 0) as [->|Hnz]; [exact I|].
  destruct (N.ltb_spec v (2 ^ 53)) as [_|]; [|lia].
  apply strip_zeros_wf; lia.
Qed.

Lemma two_53_below_10_16 : (2 ^ 53 < 10 ^ N.of_nat 16)%N.
Proof. reflexivity. Qed.

(** Printing the Number of an integer below [2^53] gives the integer's
    decimal digits. *)
Lemma Number_toString_of_integer (neg : bool) (v : N) :
  (v < 2 ^ 53)%N -> Number_toString (Number_of_integer neg v) = integer_string neg v.
Proof.
  intros Hv. unfold Number_of_integer, integer_string.
  destruct (N.eqb_spec v 0) as [->|Hnz].
  - rewrite andb_false_r. reflexivity.
  - rewrite andb_true_r.
    destruct (N.ltb_spec v (2 ^ 53)) as [_|]; [|lia].
    unfold Number_toString, num_digits.
    destruct (significand_decimal v) as [j Hj].
    assert (Hlen : (String.length (decimal v) <= 16)%nat).
    { apply decimal_length_bound. pose proof two_53_below_10_16. lia. }
    assert (Hk : String.length (decimal v)
                 = (String.length (decimal (significand v)) + j)%nat).
    { rewrite Hj at 1. rewrite string_length_app, length_repeat_char. reflexivity. }
    destruct (Z.leb_spec (Z.of_nat (String.length (decimal (significand v))))
                (Z.of_nat (String.length (decimal v)))) as [_|]; [|lia].
    destruct (Z.leb_spec (Z.of_nat (String.length (decimal v))) 21) as [_|]; [|lia].
    simpl. f_equal. rewrite Hj at 2. f_equal. f_equal. lia.
Qed.





(** Printing a finite Number gives digits, a point, an exponent mark and
    signs only. *)
Lemma is_decimal_numeric (c : ascii) : is_decimal_digit c = true -> is_numeric_char c = true.
Proof. unfold is_numeric_char. intros ->. reflexivity. Qed.

Lemma decimal_numeric (v : N) : string_forall is_numeric_char (decimal v) = true.
Proof. apply (string_forall_impl _ _ _ is_decimal_numeric), decimal_digits. Qed.

Lemma mantissa_numeric (ds : string) :
  string_forall is_numeric_char ds = true -> string_forall is_numeric_char (mantissa ds) = true.
Proof.
  destruct ds as [|d [|d' r]]; simpl; intros; assumption.
Qed.

Lemma Number_toString_numeric (x : Number) :
  Number_isFinite x = true -> string_forall is_numeric_char (Number_toString x) = true.
Proof.
  destruct x as [|neg|neg|neg s n]; try discriminate; intros _; [reflexivity|].
  unfold Number_toString.
  assert (Hsign : string_forall is_numeric_char (sign_string neg) = true)
    by (destruct neg; reflexivity).
  pose proof (decimal_numeric s) as Hds.
  rewrite string_forall_app, Hsign. simpl.
  repeat match goal with |- context [if ?b then _ else _] => destruct b end;
    rewrite ?string_forall_app, ?string_forall_substring, ?string_forall_repeat,
      ?mantissa_numeric, ?decimal_numeric by (assumption || reflexivity);
    reflexivity.
Qed.


(** ** [_pyFloatRepr] *)

Lemma has_char_app (c : ascii) (s t : string) :
  has_char c (s +:+ t) = has_char c s || has_char c t.
Proof. unfold has_char. rewrite string_forall_app. apply negb_andb. Qed.

Lemma has_char_cons (c a : ascii) (s : string) :
  has_char c (String a s) = (a =? c)%char || has_char c s.
Proof.
  unfold has_char. cbn [string_forall]. rewrite negb_andb, negb_involutive. reflexivity.
Qed.

Lemma indexOf_has_char (c : ascii) (s : string) :
  (indexOf s (String c "") =? -1)%Z = negb (has_char c s).
Proof. unfold has_char. rewrite negb_involutive. apply indexOf_char. Qed.

Lemma has_char_digits (c : ascii) (s : string) :
  is_decimal_digit c = false -> string_forall is_decimal_digit s = true ->
  has_char c s = false.
Proof.
  intros Hc Hs. unfold has_char. apply negb_false_iff.
  revert Hs. apply string_forall_impl. intros a Ha.
  apply negb_true_iff, Ascii.eqb_neq. intros ->. congruence.
Qed.

Lemma has_char_repeat (c a : ascii) (n : nat) : a <> c -> has_char c (repeat_char a n) = false.
Proof.
  intros Hne. unfold has_char. apply negb_false_iff, string_forall_repeat.
  apply negb_true_iff, Ascii.eqb_neq, Hne.
Qed.

Lemma has_char_mantissa_e (ds : string) :
  string_forall is_decimal_digit ds = true -> has_char "e" (mantissa ds) = false.
Proof.
  intros H. destruct ds as [|d [|d' r]]; try (apply has_char_digits; [reflexivity|exact H]).
  simpl in H. apply andb_prop in H as [Hd Hr].
  unfold mantissa. change (String d ("." +:+ String d' r)) with (String d "." +:+ String d' r).
  rewrite has_char_app, (has_char_digits "e" (String d' r)) by (reflexivity || exact Hr).
  rewrite !has_char_cons.
  replace (d =? "e")%char with false; [reflexivity|].
  symmetry. apply Ascii.eqb_neq. intros ->. discriminate.
Qed.

(** A Number printed positionally as an integer carries no point and no
    exponent mark. *)
Lemma Number_toString_plain (neg : bool) (s : N) (n : Z) :
  (num_digits s <= n <= 21)%Z ->
  Number_toString (Finite neg s n)
    = sign_string neg +:+ decimal s +:+ repeat_char "0" (Z.to_nat (n - num_digits s))
  /\ forall c, is_decimal_digit c = false -> c <> "-"%char ->
       has_char c (Number_toString (Finite neg s n)) = false.
Proof.
  intros [Hk Hn]. unfold Number_toString. fold (num_digits s).
  destruct (Z.leb_spec (num_digits s) n) as [_|]; [|lia].
  destruct (Z.leb_spec n 21) as [_|]; [|lia]. simpl.
  split; [reflexivity|]. intros c Hc Hminus.
  rewrite !has_char_app, (has_char_digits c (decimal s) Hc (decimal_digits s)).
  rewrite has_char_repeat by (intros <-; discriminate).
  destruct neg; [|reflexivity].
  unfold sign_string. rewrite has_char_cons.
  replace ("-" =? c)%char with false; [reflexivity|].
  symmetry. apply Ascii.eqb_neq. congruence.
Qed.

(** Any other finite Number is printed with a point or an exponent mark. *)
Lemma Number_toString_marked (neg : bool) (s : N) (n : Z) :
  ~ (num_digits s <= n <= 21)%Z ->
  has_char "." (Number_toString (Finite neg s n))
  || has_char "e" (Number_toString (Finite neg s n)) = true.
Proof.
  intros Hnot. unfold Number_toString. fold (num_digits s).
  destruct ((num_digits s <=? n)%Z && (n <=? 21)%Z) eqn:E1.
  { apply andb_prop in E1 as [?%Z.leb_le ?%Z.leb_le]. lia. }
  rewrite !has_char_app.
  destruct ((0 <? n)%Z && (n <=? 21)%Z).
  { rewrite !has_char_app. change (has_char "." ".") with true.
    rewrite !orb_true_r. reflexivity. }
  destruct ((-6 <? n)%Z && (n <=? 0)%Z).
  { rewrite !has_char_app. change (has_char "." "0.") with true.
    rewrite !orb_true_r. reflexivity. }
  rewrite !has_char_app. change (has_char "e" "e") with true.
  rewrite !orb_true_r. reflexivity.
Qed.

Lemma pyFloatRepr_finite (x : Number) :
  Number_isFinite x = true ->
  _pyFloatRepr x =
    if negb (has_char "." (Number_toString x)) && negb (has_char "e" (Number_toString x))
       && negb (has_char "E" (Number_toString x))
    then Ok (Number_toString x +:+ ".0") else Ok (Number_toString x).
Proof.
  intros Hfin. unfold _pyFloatRepr. rewrite Hfin. cbn [negb].
  rewrite <- !indexOf_has_char. reflexivity.
Qed.

Lemma Z_decimal_signed (neg : bool) (s : N) (j : Z) :
  (0 < s)%N -> (0 <= j)%Z ->
  Z_decimal ((if neg then -1 else 1) * (Z.of_N s * 10 ^ j))
    = sign_string neg +:+ decimal s +:+ repeat_char "0" (Z.to_nat j).
Proof.
  intros Hs Hj. unfold Z_decimal.
  assert (Hpos : (0 < Z.of_N s * 10 ^ j)%Z).
  { apply Z.mul_pos_pos; [lia|]. apply Z.pow_pos_nonneg; lia. }
  assert (Hmag : Z.to_N (Z.of_N s * 10 ^ j) = (s * 10 ^ N.of_nat (Z.to_nat j))%N).
  { rewrite Z2N.inj_mul, Z2N.inj_pow, N2Z.id, Z_nat_N by lia. reflexivity. }
  destruct neg.
  - destruct (Z.ltb_spec (-1 * (Z.of_N s * 10 ^ j)) 0) as [_|]; [|lia].
    replace (Z.abs (-1 * (Z.of_N s * 10 ^ j))) with (Z.of_N s * 10 ^ j)%Z by lia.
    rewrite Hmag, decimal_mul_pow10 by assumption. reflexivity.
  - destruct (Z.ltb_spec (1 * (Z.of_N s * 10 ^ j)) 0) as [|_]; [lia|].
    replace (Z.abs (1 * (Z.of_N s * 10 ^ j))) with (Z.of_N s * 10 ^ j)%Z by lia.
    rewrite Hmag, decimal_mul_pow10 by assumption. reflexivity.
Qed.

(** C2, amended.  NaN and the infinities are rejected with "amount not
    finite" before anything is encoded.  A finite amount of magnitude below
    10^21 is rendered as the specification's rule says: an integral value as
    its decimal integer followed by ".0", any other value as its shortest
    round-trip decimal, unchanged.  A finite amount of magnitude 10^21 or
    more is rendered in exponent notation, digits, "e+" and the exponent,
    with no ".0" added even though its value is integral. *)
Theorem pyFloatRepr_canonical_amended (x : Number) :
  wf_Number x ->
  (Number_isFinite x = false ->
     _pyFloatRepr x = Throw NonFiniteAmountError
     /\ forall fromAddr toAddr memo nonceStr,
          _canonicalTxJson fromAddr toAddr x memo nonceStr = Throw NonFiniteAmountError)
  /\ (Number_isFinite x = true -> below_1e21 x = true ->
        _pyFloatRepr x = canonical_amount_spec x)
  /\ (Number_isFinite x = true -> below_1e21 x = false ->
        exists neg s n,
          x = Finite neg s n /\ (21 < n)%Z
          /\ _pyFloatRepr x
             = Ok (sign_string neg +:+ mantissa (decimal s) +:+ "e+"
                     +:+ decimal (Z.to_N (n - 1)))).
Proof.
  intros Hwf. split; [|split].
  - intros Hfin. unfold _canonicalTxJson, _pyFloatRepr. rewrite Hfin. split; reflexivity.
  - intros Hfin Hbelow. destruct x as [| |neg|neg s n]; try discriminate; [reflexivity|].
    destruct Hwf as [Hs _]. apply Z.leb_le in Hbelow.
    rewrite pyFloatRepr_finite by reflexivity.
    unfold canonical_amount_spec, integer_value.
    change (Number_isFinite (Finite neg s n)) with true. cbn [negb].
    destruct (Z.leb_spec (num_digits s) n) as [Hk|Hk].
    + destruct (Number_toString_plain neg s n (conj Hk Hbelow)) as [Hstr Hplain].
      rewrite !Hplain by (reflexivity || discriminate). cbn [negb andb].
      rewrite Hstr, Z_decimal_signed by (assumption || lia). reflexivity.
    + pose proof (Number_toString_marked neg s n ltac:(lia)) as Hmark.
      apply orb_prop in Hmark as [-> | ->]; cbn [negb andb]; rewrite ?andb_false_r;
        reflexivity.
  - intros Hfin Hbelow. destruct x as [| |neg|neg s n]; try discriminate.
    apply Z.leb_gt in Hbelow. exists neg, s, n. split; [reflexivity|]. split; [exact Hbelow|].
    rewrite pyFloatRepr_finite by reflexivity.
    assert (Hstr : Number_toString (Finite neg s n)
                   = sign_string neg +:+ mantissa (decimal s) +:+ "e+"
                       +:+ decimal (Z.to_N (n - 1))).
    { unfold Number_toString.
      destruct (Z.leb_spec n 21) as [|_]; [lia|].
      destruct (Z.leb_spec n 0) as [|_]; [lia|].
      rewrite !andb_false_r.
      destruct (Z.ltb_spec (n - 1) 0) as [|_]; [lia|].
      rewrite Z.abs_eq by lia. reflexivity. }
    rewrite Hstr, !has_char_app.
    change (has_char "e" "e+") with true.
    rewrite !orb_true_r, andb_false_r. reflexivity.
Qed.

(** ** Hex encoding of bytes *)

Lemma byte_hex_digits (b : byte) :
  byte_hex b = String (digit_char (Byte.to_N b / 16))
                 (String (digit_char (Byte.to_N b mod 16)) "").
Proof. destruct b; vm_compute; reflexivity. Qed.

Lemma digit_char_lower_hex (d : N) : (d < 16)%N -> is_lower_hex (digit_char d) = true.
Proof. intros H. small_digit d H. Qed.

Lemma byte_hex_two (b : byte) :
  exists c1 c2, byte_hex b = String c1 (String c2 "")
                /\ is_lower_hex c1 = true /\ is_lower_hex c2 = true.
Proof.
  pose proof (Byte.to_N_bounded b) as Hb.
  exists (digit_char (Byte.to_N b / 16)), (digit_char (Byte.to_N b mod 16)).
  split; [apply byte_hex_digits|].
  split; apply digit_char_lower_hex.
  - apply N.Div0.div_lt_upper_bound. lia.
  - apply N.mod_lt. lia.
Qed.

Lemma parseInt_byte_hex (b : byte) :
  Number_isFinite (parseInt (byte_hex b) 16) = true
  /\ ToUint8 (parseInt (byte_hex b) 16) = b.
Proof. destruct b; vm_compute; split; reflexivity. Qed.

Lemma bytesToHex_app (a b : list byte) :
  _bytesToHex (a ++ b) = _bytesToHex a +:+ _bytesToHex b.
Proof.
  induction a as [|x a IH]; [reflexivity|].
  simpl. rewrite IH, app_assoc3. reflexivity.
Qed.

Lemma bytesToHex_length (bs : list byte) :
  String.length (_bytesToHex bs) = (2 * length bs)%nat.
Proof.
  induction bs as [|b bs IH]; [reflexivity|].
  simpl _bytesToHex. destruct (byte_hex_two b) as (c1 & c2 & -> & _).
  rewrite !app_cons, app_empty_l. simpl. rewrite IH. lia.
Qed.

Lemma bytesToHex_lower_hex (bs : list byte) :
  string_forall is_lower_hex (_bytesToHex bs) = true.
Proof.
  induction bs as [|b bs IH]; [reflexivity|].
  simpl _bytesToHex. destruct (byte_hex_two b) as (c1 & c2 & -> & H1 & H2).
  rewrite !app_cons, app_empty_l. simpl. rewrite H1, H2, IH. reflexivity.
Qed.

Lemma substring_skip (p s : string) (m : nat) :
  substring (String.length p) m (p +:+ s) = substring 0 m s.
Proof. induction p as [|c p IH]; [reflexivity|]. rewrite app_cons. simpl. apply IH. Qed.

Lemma hexToBytes_loop_bytesToHex (done todo : list byte) :
  hexToBytes_loop (_bytesToHex (done ++ todo)) (length done) (length todo) = Ok todo.
Proof.
  revert done. induction todo as [|b todo IH]; intros done; [reflexivity|].
  simpl hexToBytes_loop.
  assert (Hslice : slice (_bytesToHex (done ++ b :: todo))
                     (length done * 2) (length done * 2 + 2) = byte_hex b).
  { unfold slice. replace (length done * 2 + 2 - length done * 2)%nat with 2%nat by lia.
    rewrite bytesToHex_app.
    replace (length done * 2)%nat with (String.length (_bytesToHex done))
      by (rewrite bytesToHex_length; lia).
    rewrite substring_skip. simpl _bytesToHex.
    destruct (byte_hex_two b) as (c1 & c2 & -> & _).
    rewrite !app_cons. simpl. destruct (_ +:+ _); reflexivity. }
  rewrite Hslice. destruct (parseInt_byte_hex b) as [-> ->]. cbn [negb].
  replace (done ++ b :: todo) with ((done ++ [b]) ++ todo) by (rewrite <- app_assoc; reflexivity).
  replace (S (length done)) with (length (done ++ [b])) by (rewrite length_app; simpl; lia).
  rewrite IH. reflexivity.
Qed.

Lemma ToString_or_empty (h : string) : ToString (JsOr (JsString h) (JsString "")) = h.
Proof. destruct h; reflexivity. Qed.

Lemma startsWith_0x_hex (h : string) :
  string_forall is_lower_hex h = true -> startsWith h "0x" = false.
Proof.
  unfold startsWith. destruct h as [|c1 [|c2 r]]; cbn [String.prefix string_forall].
  - reflexivity.
  - intros _. destruct (ascii_dec "0" c1); reflexivity.
  - intros [_ [H2 _]%andb_prop]%andb_prop.
    destruct (ascii_dec "0" c1); [|reflexivity].
    destruct (ascii_dec "x" c2) as [<-|]; [discriminate|reflexivity].
Qed.

(** Decoding what [_bytesToHex] printed gives the bytes back. *)
Lemma hexToBytes_bytesToHex (bs : list byte) :
  _hexToBytes (JsString (_bytesToHex bs)) = Ok bs.
Proof.
  unfold _hexToBytes. rewrite ToString_or_empty.
  pose proof (bytesToHex_lower_hex bs) as Hhex.
  rewrite (trim_hex _ Hhex), (toLowerCase_hex _ Hhex), (startsWith_0x_hex _ Hhex).
  rewrite bytesToHex_length.
  replace (2 * length bs mod 2 =? 0)%nat with true
    by (symmetry; apply Nat.eqb_eq; rewrite Nat.mul_comm; apply Nat.Div0.mod_mul).
  replace (2 * length bs / 2)%nat with (length bs)
    by (rewrite Nat.mul_comm, Nat.div_mul; lia).
  cbn [negb]. apply (hexToBytes_loop_bytesToHex [] bs).
Qed.

Lemma hexToBytes_loop_length (h : string) (i todo : nat) (out : list byte) :
  hexToBytes_loop h i todo = Ok out -> length out = todo.
Proof.
  revert i out. induction todo as [|todo IH]; intros i out; simpl.
  - intros [= <-]. reflexivity.
  - destruct (negb _); [discriminate|].
    destruct (hexToBytes_loop h (S i) todo) as [out'|] eqn:E; simpl; [|discriminate].
    intros [= <-]. simpl. rewrite (IH _ _ E). reflexivity.
Qed.

(** The only errors of [_hexToBytes]. *)
Lemma hexToBytes_loop_throws (h : string) (i todo : nat) (m : string) :
  hexToBytes_loop h i todo = Throw m -> m = "invalid hex".
Proof.
  revert i. induction todo as [|todo IH]; intros i; simpl; [discriminate|].
  destruct (negb _); [intros [= <-]; reflexivity|].
  destruct (hexToBytes_loop h (S i) todo) eqn:E; simpl; [discriminate|].
  intros [= <-]. apply (IH _ E).
Qed.

Lemma hexToBytes_throws (hex : JsValue) (m : string) :
  _hexToBytes hex = Throw m -> m = "hex length must be even" \/ m = "invalid hex".
Proof.
  unfold _hexToBytes. destruct (negb _).
  - intros [= <-]. left. reflexivity.
  - intros H. right. apply (hexToBytes_loop_throws _ _ _ _ H).
Qed.

(** ** The canonical message *)

Lemma canonicalTxJson_shape (fromAddr toAddr : JsValue) (amountRtc : Number)
    (memo nonceStr : JsValue) (amount : string) :
  _pyFloatRepr amountRtc = Ok amount ->
  _canonicalTxJson fromAddr toAddr amountRtc memo nonceStr
    = Ok (wire_shape amount
            (ToString (JsOr fromAddr (JsString "")))
            (ToString (JsOr memo (JsString "")))
            (ToString (JsOr nonceStr (JsString "")))
            (ToString (JsOr toAddr (JsString "")))).
Proof.
  intros Hamount. unfold _canonicalTxJson. rewrite Hamount. reflexivity.
Qed.

Lemma pyFloatRepr_numeric (x : Number) (amount : string) :
  _pyFloatRepr x = Ok amount -> string_forall is_numeric_char amount = true.
Proof.
  unfold _pyFloatRepr. destruct (Number_isFinite x) eqn:Hfin; [|discriminate].
  cbn [negb]. pose proof (Number_toString_numeric x Hfin) as Hnum.
  destruct (_ && _); intros [= <-]; [|exact Hnum].
  rewrite string_forall_app, Hnum. reflexivity.
Qed.

(** ** The nonce check *)

Lemma Number_toString_not_empty (x : Number) : Number_toString x <> "".
Proof.
  destruct x as [|[]|neg|neg s n]; try discriminate.
  intros E.
  destruct (Z.leb_spec (num_digits s) n) as [Hk|Hk];
    [destruct (Z.leb_spec n 21) as [Hn|Hn]|].
  - destruct (Number_toString_plain neg s n (conj Hk Hn)) as [Hstr _].
    rewrite Hstr in E. pose proof (decimal_length_pos s) as Hlen.
    apply (f_equal String.length) in E.
    rewrite !string_length_app in E. simpl in E. lia.
  - pose proof (Number_toString_marked neg s n ltac:(lia)) as H.
    rewrite E in H. discriminate.
  - pose proof (Number_toString_marked neg s n ltac:(lia)) as H.
    rewrite E in H. discriminate.
Qed.

Lemma Number_toString_NaN (x : Number) : Number_toString x = "NaN" -> x = NaN.
Proof.
  destruct x as [|[]|neg|neg s n]; try discriminate; [reflexivity|].
  intros E. pose proof (Number_toString_numeric (Finite neg s n) eq_refl) as H.
  rewrite E in H. discriminate.
Qed.

Lemma nonce_check (x : Number) :
  negb (ToBoolean (JsString (Number_toString x))) || (Number_toString x =? "NaN")%string
  = match x with NaN => true | _ => false end.
Proof.
  destruct x as [|neg|neg|neg s n]; try reflexivity.
  - destruct neg; reflexivity.
  - pose proof (Number_toString_not_empty (Finite neg s n)) as Hne.
    assert (Hnan : (Number_toString (Finite neg s n) =? "NaN")%string = false).
    { apply String.eqb_neq. intros E. apply Number_toString_NaN in E. discriminate. }
    rewrite Hnan. destruct (Number_toString (Finite neg s n)); [contradiction|reflexivity].
Qed.

Lemma Number_of_integer_not_NaN (neg : bool) (v : N) : Number_of_integer neg v <> NaN.
Proof.
  unfold Number_of_integer, Number_of_big_integer.
  repeat match goal with
         | |- context [if ?b then _ else _] => destruct b
         | |- context [match ?o with Some _ => _ | None => _ end] => destruct o
         | |- context [let '(_, _) := ?p in _] => destruct p
         end; discriminate.
Qed.

Lemma parseInt_NaN (input : string) (radix : N) :
  parseInt input radix = NaN <-> parseInt_integer input radix = None.
Proof.
  unfold parseInt. destruct (parseInt_integer input radix) as [[neg v]|].
  - split; [|discriminate]. intros E. destruct (Number_of_integer_not_NaN _ _ E).
  - split; reflexivity.
Qed.

(** What a successful [signTransfer] has computed. *)
Lemma signTransfer_Ok (w : World) (toAddr : JsValue) (amountRtc : Number)
    (memo nonceInt : JsValue) (p : Payload.t) :
  signTransfer w toAddr amountRtc memo nonceInt = Ok p ->
  exists wallet amount neg v,
    getWallet w = Ok (Some wallet)
    /\ parseInt_integer (ToString nonceInt) 10 = Some (neg, v)
    /\ _pyFloatRepr amountRtc = Ok amount
    /\ let nonceStr := Number_toString (Number_of_integer neg v) in
       let msg := wire_shape amount (Wallet.address wallet)
                    (ToString (JsOr memo (JsString ""))) nonceStr
                    (ToString (JsOr toAddr (JsString ""))) in
       p = Payload.mk (Wallet.address wallet) (Wallet.publicKeyHex wallet)
             (_bytesToHex (nacl_sign_detached (TextEncoder_encode msg)
                             (Wallet.secretKey wallet)))
             (parseInt nonceStr 10) (ToString (JsOr memo (JsString ""))) msg.
Proof.
  unfold signTransfer.
  destruct (getWallet w) as [[wallet|]|] eqn:Hw; cbn [bind]; try discriminate.
  rewrite nonce_check.
  destruct (parseInt_integer (ToString nonceInt) 10) as [[neg v]|] eqn:Hp.
  - assert (Hpi : parseInt (ToString nonceInt) 10 = Number_of_integer neg v)
      by (unfold parseInt; rewrite Hp; reflexivity).
    rewrite Hpi.
    assert (Hchk : match Number_of_integer neg v with NaN => true | _ => false end = false).
    { pose proof (Number_of_integer_not_NaN neg v).
      destruct (Number_of_integer neg v); [contradiction|reflexivity..]. }
    rewrite Hchk.
    destruct (_pyFloatRepr amountRtc) as [amount|] eqn:Ha;
      [|unfold _canonicalTxJson; rewrite Ha; discriminate].
    rewrite (canonicalTxJson_shape _ _ _ _ _ _ Ha), !ToString_or_empty. cbn [bind].
    intros [= <-]. exists wallet, amount, neg, v. repeat split; reflexivity.
  - assert (Hpi : parseInt (ToString nonceInt) 10 = NaN) by (apply parseInt_NaN, Hp).
    rewrite Hpi. discriminate.
Qed.

(** ** The digits of a Number made from an integer *)











Lemma walletFromSeedHex_throws (seedHex : JsValue) (m : string) :
  _walletFromSeedHex seedHex = Throw m ->
  m = CryptoUnavailableError \/ InvalidSeedError m.
Proof.
  unfold _walletFromSeedHex. destruct nacl_loaded; cbn [negb]; [|intros [= <-]; left; reflexivity].
  destruct (_hexToBytes seedHex) as [seed|m'] eqn:Hhex; cbn [bind].
  - destruct (negb _); [|discriminate]. intros [= <-]. right. right. right. reflexivity.
  - intros [= <-]. right. destruct (hexToBytes_throws _ _ Hhex) as [->| ->];
      [left|right; left]; reflexivity.
Qed.

Lemma getWallet_throws (w : World) (m : string) :
  getWallet w = Throw m -> m = CryptoUnavailableError \/ InvalidSeedError m.
Proof.
  unfold getWallet. destruct (negb _); [discriminate|].
  destruct (_walletFromSeedHex _) eqn:E; cbn [bind]; [discriminate|].
  intros [= <-]. apply (walletFromSeedHex_throws _ _ E).
Qed.

(** C1.  The canonical message of every signed transfer is the object
    {"amount":A,"from":"F","memo":"M","nonce":"N","to":"T"}: keys in the
    order amount, from, memo, nonce, to, no whitespace, from, memo, nonce and
    to as JSON-escaped strings between quotes (the nonce in its string
    form), and the amount as the only bare number, made of digits, point,
    exponent mark and sign only.  The signature is taken over the UTF-8
    bytes of exactly this message. *)
Theorem canonical_message_format (w : World) (toAddr : JsValue) (amountRtc : Number)
    (memo nonceInt : JsValue) (p : Payload.t) :
  signTransfer w toAddr amountRtc memo nonceInt = Ok p ->
  exists amount wallet,
    _pyFloatRepr amountRtc = Ok amount
    /\ string_forall is_numeric_char amount = true
    /\ Payload.canonical_message p
       = wire_shape amount (Payload.from_address p) (Payload.memo p)
           (Number_toString (parseInt (ToString nonceInt) 10))
           (ToString (JsOr toAddr (JsString "")))
    /\ getWallet w = Ok (Some wallet)
    /\ Payload.signature p
       = _bytesToHex (nacl_sign_detached
                        (TextEncoder_encode (Payload.canonical_message p))
                        (Wallet.secretKey wallet)).
Proof.
  intros H. apply signTransfer_Ok in H as (wallet & amount & neg & v & Hw & Hp & Ha & ->).
  exists amount, wallet. cbn [Payload.canonical_message Payload.from_address
    Payload.memo Payload.signature].
  unfold parseInt. rewrite Hp.
  repeat split; try assumption. apply (pyFloatRepr_numeric _ _ Ha).
Qed.

(** C10.  The memo of a signed payload is the very string serialized at the
    memo position of its canonical message: both are [String(memo || "")],
    so a null, undefined or otherwise falsy memo is the empty string in
    both. *)
Theorem payload_memo_is_message_memo (w : World) (toAddr : JsValue)
    (amountRtc : Number) (memo nonceInt : JsValue) (p : Payload.t) :
  signTransfer w toAddr amountRtc memo nonceInt = Ok p ->
  Payload.memo p = ToString (JsOr memo (JsString ""))
  /\ (ToBoolean memo = false -> Payload.memo p = "")
  /\ exists amount,
       _pyFloatRepr amountRtc = Ok amount
       /\ Payload.canonical_message p
          = wire_shape amount (Payload.from_address p) (Payload.memo p)
              (Number_toString (parseInt (ToString nonceInt) 10))
              (ToString (JsOr toAddr (JsString ""))).
Proof.
  intros H. apply signTransfer_Ok in H as (wallet & amount & neg & v & Hw & Hp & Ha & ->).
  cbn [Payload.canonical_message Payload.from_address Payload.memo].
  split; [reflexivity|]. split.
  - intros Hfalsy. unfold JsOr. rewrite Hfalsy. reflexivity.
  - exists amount. unfold parseInt. rewrite Hp. split; [assumption|reflexivity].
Qed.



(** ** The store *)

Lemma getSeedHex_setItem (w : World) (s : string) :
  string_forall is_lower_hex s = true -> getSeedHex (setItem w STORAGE_SEED s) = s.
Proof.
  intros Hs. unfold getSeedHex, getItem, setItem. cbn [localStorage].
  rewrite lookup_insert_eq, ToString_or_empty. apply trim_hex, Hs.
Qed.

Lemma getSeedHex_slot (w1 w2 : World) :
  localStorage w1 !! STORAGE_SEED = localStorage w2 !! STORAGE_SEED ->
  getSeedHex w1 = getSeedHex w2.
Proof. intros H. unfold getSeedHex, getItem. rewrite H. reflexivity. Qed.

Lemma getWallet_stored (w : World) (seed : list byte) (wallet : Wallet.t) :
  length seed = 32%nat ->
  getSeedHex w = _bytesToHex seed ->
  _walletFromSeedHex (JsString (_bytesToHex seed)) = Ok wallet ->
  getWallet w = Ok (Some wallet).
Proof.
  intros Hlen Hget Hwallet. unfold getWallet. rewrite Hget, Hwallet.
  pose proof (bytesToHex_length seed) as Hl. rewrite Hlen in Hl.
  destruct (_bytesToHex seed); [discriminate|reflexivity].
Qed.

Lemma walletFromSeedHex_seedHex (seed : list byte) (wallet : Wallet.t) :
  _walletFromSeedHex (JsString (_bytesToHex seed)) = Ok wallet ->
  Wallet.seedHex wallet = _bytesToHex seed.
Proof.
  unfold _walletFromSeedHex. rewrite hexToBytes_bytesToHex.
  destruct (negb nacl_loaded); [discriminate|]. cbn [bind].
  destruct (negb _); [discriminate|]. intros [= <-]. reflexivity.
Qed.

Lemma walletFromSeedHex_loaded (seed : list byte) :
  nacl_loaded = true -> length seed = 32%nat ->
  exists wallet, _walletFromSeedHex (JsString (_bytesToHex seed)) = Ok wallet.
Proof.
  intros Hn Hlen. unfold _walletFromSeedHex.
  rewrite Hn, hexToBytes_bytesToHex. cbn [negb bind]. rewrite Hlen. cbn [Nat.eqb negb].
  eauto.
Qed.

(** What [importSeed] does, case by case. *)
Lemma importSeed_cases (w : World) (seedHex : JsValue) :
  (exists m, InvalidSeedError m /\ importSeed w seedHex = (Throw m, w))
  \/ (exists seed, _hexToBytes seedHex = Ok seed /\ length seed = 32%nat
        /\ importSeed w seedHex
           = (_walletFromSeedHex (JsString (_bytesToHex seed)),
              setItem w STORAGE_SEED (_bytesToHex seed))).
Proof.
  unfold importSeed. destruct (_hexToBytes seedHex) as [seed|m] eqn:Hhex.
  - destruct (Nat.eqb_spec (length seed) 32) as [Hlen|Hlen]; cbn [negb].
    + right. exists seed. repeat split. exact Hlen.
    + left. eexists. split; [|reflexivity]. right. right. reflexivity.
  - left. exists m. split; [|reflexivity].
    destruct (hexToBytes_throws _ _ Hhex) as [->| ->]; [left|right; left]; reflexivity.
Qed.

Lemma generateWallet_cases (w : World) :
  exists seed, length seed = 32%nat
    /\ fst (generateWallet w) = _walletFromSeedHex (JsString (_bytesToHex seed))
    /\ localStorage (snd (generateWallet w))
       = <[STORAGE_SEED := _bytesToHex seed]> (localStorage w).
Proof.
  exists (map (entropy w) (seq 0 32)). split; [|split]; reflexivity.
Qed.

Lemma seed_format_bytesToHex (seed : list byte) :
  length seed = 32%nat -> is_seed_format (_bytesToHex seed) = true.
Proof.
  intros Hlen. unfold is_seed_format.
  rewrite bytesToHex_length, Hlen, bytesToHex_lower_hex. reflexivity.
Qed.

(** C8.  After a successful [importSeed], [getWallet] returns the very
    wallet the import returned (same seed, public key, address and secret
    key), and so does every later [getWallet] for as long as the seed slot
    holds the same value; if the seed is one that [generateWallet] created,
    it is the wallet that call returned. *)
Theorem import_then_get_same_wallet (w : World) (seedHex : JsValue)
    (wallet : Wallet.t) (w' : World) :
  importSeed w seedHex = (Ok wallet, w') ->
  getWallet w' = Ok (Some wallet)
  /\ (forall w2, localStorage w2 !! STORAGE_SEED = localStorage w' !! STORAGE_SEED ->
        getWallet w2 = Ok (Some wallet))
  /\ (forall w0 w1 wallet0,
        generateWallet w0 = (Ok wallet0, w1) ->
        Wallet.seedHex wallet0 = Wallet.seedHex wallet ->
        wallet0 = wallet
        /\ Wallet.address wallet0 = Wallet.address wallet
        /\ Wallet.publicKeyHex wallet0 = Wallet.publicKeyHex wallet).
Proof.
  intros Himp.
  destruct (importSeed_cases w seedHex) as [(m & _ & E)|(seed & Hhex & Hlen & E)];
    rewrite E in Himp; [discriminate|].
  injection Himp as Hwallet <-.
  assert (Hget : getSeedHex (setItem w STORAGE_SEED (_bytesToHex seed)) = _bytesToHex seed)
    by apply getSeedHex_setItem, bytesToHex_lower_hex.
  split; [|split].
  - apply (getWallet_stored _ seed); assumption.
  - intros w2 Hslot. apply (getWallet_stored _ seed); try assumption.
    rewrite (getSeedHex_slot _ _ Hslot). exact Hget.
  - intros w0 w1 wallet0 Hgen Hsame.
    destruct (generateWallet_cases w0) as (seed0 & Hlen0 & Hfst & _).
    rewrite Hgen in Hfst. cbn [fst] in Hfst. symmetry in Hfst.
    rewrite (walletFromSeedHex_seedHex _ _ Hfst),
      (walletFromSeedHex_seedHex _ _ Hwallet) in Hsame.
    rewrite Hsame, Hwallet in Hfst. injection Hfst as <-. repeat split.
Qed.

(** C9.  A call of [generateWallet] or [importSeed] either leaves the store
    as it was or sets the seed slot to the hex of exactly 32 bytes: 64
    lower-case hex digits, which decode to these bytes again, whatever the
    case or prefix of the caller's input. *)
Theorem stored_seed_format (w : World) (op : WalletOp) :
  snd (perform w op) = w
  \/ exists seed,
       length seed = 32%nat
       /\ localStorage (snd (perform w op))
          = <[STORAGE_SEED := _bytesToHex seed]> (localStorage w)
       /\ is_seed_format (_bytesToHex seed) = true
       /\ _hexToBytes (JsString (_bytesToHex seed)) = Ok seed.
Proof.
  destruct op as [|seedHex]; cbn [perform].
  - right. destruct (generateWallet_cases w) as (seed & Hlen & _ & Hst).
    exists seed. repeat split; try assumption.
    + apply seed_format_bytesToHex, Hlen.
    + apply hexToBytes_bytesToHex.
  - destruct (importSeed_cases w seedHex) as [(m & _ & E)|(seed & Hhex & Hlen & E)];
      rewrite E; [left; reflexivity|].
    right. exists seed. repeat split; try assumption.
    + apply seed_format_bytesToHex, Hlen.
    + apply hexToBytes_bytesToHex.
Qed.

(** C5, amended.  When [importSeed] fails the validation of the new seed
    (malformed hex, or a decoded length other than 32 bytes), the store is
    left as it was.  The seed is written after that validation and before
    the key pair is derived; the only other failure of [generateWallet] and
    [importSeed] is "nacl not loaded", raised when the library is missing,
    and then the new seed has already been stored. *)
Theorem failed_write_leaves_store (w : World) (op : WalletOp) (m : string) (w' : World) :
  perform w op = (Throw m, w') ->
  (InvalidSeedError m /\ w' = w)
  \/ (m = CryptoUnavailableError /\ nacl_loaded = false
      /\ exists seed, length seed = 32%nat
           /\ localStorage w' = <[STORAGE_SEED := _bytesToHex seed]> (localStorage w)).
Proof.
  intros Hop.
  assert (Hderive : forall seed, length seed = 32%nat ->
            _walletFromSeedHex (JsString (_bytesToHex seed)) = Throw m ->
            m = CryptoUnavailableError /\ nacl_loaded = false).
  { intros seed Hlen Hthrow. destruct nacl_loaded eqn:Hn.
    - destruct (walletFromSeedHex_loaded seed Hn Hlen) as [wallet Hok]. congruence.
    - unfold _walletFromSeedHex in Hthrow. rewrite Hn in Hthrow. cbn [negb] in Hthrow.
      injection Hthrow as <-. split; reflexivity. }
  destruct op as [|seedHex]; cbn [perform] in Hop.
  - right. destruct (generateWallet_cases w) as (seed & Hlen & Hfst & Hst).
    rewrite Hop in Hfst, Hst. cbn [fst snd] in Hfst, Hst. symmetry in Hfst.
    destruct (Hderive seed Hlen Hfst) as [-> Hn]. eauto 6.
  - destruct (importSeed_cases w seedHex) as [(m' & Hm & E)|(seed & Hhex & Hlen & E)];
      rewrite E in Hop.
    + injection Hop as <- <-. left. split; [assumption|reflexivity].
    + injection Hop as Hthrow <-. right.
      destruct (Hderive seed Hlen Hthrow) as [-> Hn]. eauto 6.
Qed.

(** ** Further properties of the hex codec and of [importSeed] *)

(** [_bytesToHex] prints two lower-case hex digits per byte, and
    [_hexToBytes] reads them back. *)
Theorem hex_roundtrip (bs : list byte) :
  _hexToBytes (JsString (_bytesToHex bs)) = Ok bs
  /\ String.length (_bytesToHex bs) = (2 * length bs)%nat
  /\ string_forall is_lower_hex (_bytesToHex bs) = true.
Proof.
  split; [apply hexToBytes_bytesToHex|].
  split; [apply bytesToHex_length|apply bytesToHex_lower_hex].
Qed.

(** [importSeed] never pads or truncates: it fails, leaving the store as it
    was, when the hex does not decode or decodes to a number of bytes other
    than 32, and what it stores on success is the hex of the 32 bytes
    decoded. *)
Theorem importSeed_length_check (w : World) (seedHex : JsValue) :
  (forall m, _hexToBytes seedHex = Throw m ->
     importSeed w seedHex = (Throw m, w)
     /\ (m = "hex length must be even" \/ m = "invalid hex"))
  /\ (forall seed, _hexToBytes seedHex = Ok seed -> length seed <> 32%nat ->
        importSeed w seedHex = (Throw "seed must be 32 bytes", w))
  /\ (forall wallet w', importSeed w seedHex = (Ok wallet, w') ->
        exists seed,
          _hexToBytes seedHex = Ok seed /\ length seed = 32%nat
          /\ Wallet.seedHex wallet = _bytesToHex seed
          /\ w' = setItem w STORAGE_SEED (_bytesToHex seed)).
Proof.
  split; [|split].
  - intros m Hhex. unfold importSeed. rewrite Hhex. split; [reflexivity|].
    apply (hexToBytes_throws _ _ Hhex).
  - intros seed Hhex Hlen. unfold importSeed. rewrite Hhex.
    destruct (Nat.eqb_spec (length seed) 32); [contradiction|reflexivity].
  - intros wallet w' Himp.
    destruct (importSeed_cases w seedHex) as [(m & _ & E)|(seed & Hhex & Hlen & E)];
      rewrite E in Himp; [discriminate|].
    injection Himp as Hwallet <-. exists seed. repeat split; try assumption.
    apply (walletFromSeedHex_seedHex _ _ Hwallet).
Qed.

(** With the library loaded, the hex of any 32 bytes is imported: the call
    stores that hex and returns a wallet. *)
Theorem importSeed_valid_seed (w : World) (seed : list byte) :
  nacl_loaded = true -> length seed = 32%nat ->
  exists wallet,
    importSeed w (JsString (_bytesToHex seed))
    = (Ok wallet, setItem w STORAGE_SEED (_bytesToHex seed))
    /\ Wallet.seedHex wallet = _bytesToHex seed.
Proof.
  intros Hn Hlen.
  destruct (walletFromSeedHex_loaded seed Hn Hlen) as [wallet Hwallet].
  exists wallet. split; [|apply (walletFromSeedHex_seedHex _ _ Hwallet)].
  unfold importSeed. rewrite hexToBytes_bytesToHex, Hlen. cbn [Nat.eqb negb].
  rewrite Hwallet. reflexivity.
Qed.

(** ** The address *)

Lemma substring_bytesToHex (n : nat) (bs : list byte) :
  substring 0 (2 * n) (_bytesToHex bs) = _bytesToHex (firstn n bs).
Proof.
  revert bs. induction n as [|n IH]; intros bs.
  - destruct bs; [reflexivity|]. simpl _bytesToHex.
    destruct (byte_hex_two b) as (c1 & c2 & -> & _). reflexivity.
  - destruct bs as [|b bs]; [reflexivity|].
    replace (2 * S n)%nat with (S (S (2 * n))) by lia.
    cbn [firstn _bytesToHex].
    destruct (byte_hex_two b) as (c1 & c2 & -> & _).
    rewrite !app_cons, app_empty_l. cbn [substring]. rewrite IH. reflexivity.
Qed.

Lemma bytesToHex_inj (a b : list byte) : _bytesToHex a = _bytesToHex b -> a = b.
Proof.
  intros E. pose proof (hexToBytes_bytesToHex a) as Ha.
  rewrite E, hexToBytes_bytesToHex in Ha. congruence.
Qed.

(** C6.  The address of a wallet is a function of its public key alone:
    "RTC" followed by the hex of the first 20 bytes of the SHA-256 of the
    32-byte key, 43 characters in all, the 40 after "RTC" lower-case hex
    digits with nothing in between; two wallets with the same public key
    have the same address. *)
Theorem address_derivation (seedHex : JsValue) (wallet : Wallet.t) :
  (forall m, length (SHA256 m) = 32%nat) ->
  _walletFromSeedHex seedHex = Ok wallet ->
  (exists seed,
     _hexToBytes seedHex = Ok seed
     /\ Wallet.publicKeyHex wallet
        = _bytesToHex (KeyPair.publicKey (nacl_sign_keyPair_fromSeed seed))
     /\ Wallet.address wallet
        = derive SHA256 (KeyPair.publicKey (nacl_sign_keyPair_fromSeed seed)))
  /\ String.length (Wallet.address wallet) = 43%nat
  /\ string_forall is_lower_hex (slice_from (Wallet.address wallet) 3) = true
  /\ (forall seedHex' wallet',
        _walletFromSeedHex seedHex' = Ok wallet' ->
        Wallet.publicKeyHex wallet' = Wallet.publicKeyHex wallet ->
        Wallet.address wallet' = Wallet.address wallet).
Proof.
  intros Hsha Hwallet.
  assert (Hinv : forall h wl, _walletFromSeedHex h = Ok wl ->
            exists seed, _hexToBytes h = Ok seed
              /\ Wallet.publicKeyHex wl
                 = _bytesToHex (KeyPair.publicKey (nacl_sign_keyPair_fromSeed seed))
              /\ Wallet.address wl
                 = derive SHA256 (KeyPair.publicKey (nacl_sign_keyPair_fromSeed seed))).
  { intros h wl. unfold _walletFromSeedHex.
    destruct (negb nacl_loaded); [discriminate|].
    destruct (_hexToBytes h) as [seed|]; cbn [bind]; [|discriminate].
    destruct (negb _); [discriminate|]. intros [= <-]. exists seed.
    cbn [Wallet.publicKeyHex Wallet.address]. repeat split.
    unfold derive, _sha256Hex, slice. f_equal. apply (substring_bytesToHex 20). }
  destruct (Hinv _ _ Hwallet) as (seed & Hhex & Hpub & Haddr).
  split; [eauto|].
  assert (Hlen : length (firstn 20 (SHA256 (KeyPair.publicKey (nacl_sign_keyPair_fromSeed seed))))
                 = 20%nat) by (rewrite length_firstn, Hsha; reflexivity).
  split; [|split].
  - rewrite Haddr. unfold derive. rewrite string_length_app, bytesToHex_length, Hlen.
    reflexivity.
  - rewrite Haddr. unfold derive, slice_from.
    rewrite string_length_app, bytesToHex_length, Hlen.
    change (String.length "RTC" + 2 * 20 - 3)%nat with 40%nat.
    change 3%nat with (String.length "RTC"). rewrite substring_skip.
    apply string_forall_substring, bytesToHex_lower_hex.
  - intros seedHex' wallet' Hwallet' Hsame.
    destruct (Hinv _ _ Hwallet') as (seed' & _ & Hpub' & Haddr').
    rewrite Hpub, Hpub' in Hsame. apply bytesToHex_inj in Hsame.
    rewrite Haddr, Haddr', Hsame. reflexivity.
Qed.

(** ** Clearing *)

(** C7.  After [clearWallet] the store is locked, whatever calls of
    [generateWallet] and [importSeed] came before: the seed slot is empty,
    [getWallet] returns null and [signTransfer] fails with "no local
    wallet", producing no payload. *)
Theorem clear_locks_store (w : World) (ops : list WalletOp) (toAddr : JsValue)
    (amountRtc : Number) (memo nonceInt : JsValue) :
  localStorage (clearWallet (run_ops w ops)) !! STORAGE_SEED = None
  /\ getWallet (clearWallet (run_ops w ops)) = Ok None
  /\ signTransfer (clearWallet (run_ops w ops)) toAddr amountRtc memo nonceInt
     = Throw NoWalletError.
Proof.
  assert (Hslot : localStorage (clearWallet (run_ops w ops)) !! STORAGE_SEED = None)
    by apply lookup_delete_eq.
  assert (Hget : getWallet (clearWallet (run_ops w ops)) = Ok None).
  { unfold getWallet, getSeedHex, getItem. rewrite Hslot. reflexivity. }
  split; [exact Hslot|]. split; [exact Hget|].
  unfold signTransfer. rewrite Hget. reflexivity.
Qed.

(** ** Decoding well-formed hex *)

Lemma substring_app_skip (p r : string) (a m : nat) :
  substring (String.length p + a) m (p +:+ r) = substring a m r.
Proof. induction p as [|c p IH]; [reflexivity|]. rewrite app_cons. simpl. apply IH. Qed.

(** The loop reads its input two characters at a time, from left to right. *)
Lemma hexToBytes_loop_shift (p r : string) (i j todo : nat) :
  String.length p = (2 * i)%nat ->
  hexToBytes_loop (p +:+ r) (i + j) todo = hexToBytes_loop r j todo.
Proof.
  intros Hp. revert j. induction todo as [|todo IH]; intros j; [reflexivity|].
  cbn [hexToBytes_loop].
  assert (Hs : slice (p +:+ r) ((i + j) * 2) ((i + j) * 2 + 2) = slice r (j * 2) (j * 2 + 2)).
  { unfold slice.
    replace ((i + j) * 2 + 2 - (i + j) * 2)%nat with (j * 2 + 2 - j * 2)%nat by lia.
    replace ((i + j) * 2)%nat with (String.length p + j * 2)%nat by lia.
    apply substring_app_skip. }
  rewrite Hs. replace (S (i + j)) with (i + S j)%nat by lia. rewrite IH. reflexivity.
Qed.

Lemma hexToBytes_loop_pair (c1 c2 : ascii) (r : string) (todo : nat) :
  hexToBytes_loop (String c1 (String c2 r)) 0 (S todo)
  = let b := parseInt (String c1 (String c2 "")) 16 in
    if negb (Number_isFinite b) then Throw "invalid hex"
    else let* out := hexToBytes_loop r 0 todo in Ok (ToUint8 b :: out).
Proof.
  cbn [hexToBytes_loop].
  assert (Hs : slice (String c1 (String c2 r)) (0 * 2) (0 * 2 + 2) = String c1 (String c2 ""))
    by (destruct r; reflexivity).
  rewrite Hs.
  change (String c1 (String c2 r)) with (String c1 (String c2 "") +:+ r).
  pose proof (hexToBytes_loop_shift (String c1 (String c2 "")) r 1 0 todo eq_refl) as Hsh.
  change (1 + 0)%nat with 1%nat in Hsh. rewrite Hsh. reflexivity.
Qed.

Lemma lower_hex_digit (c : ascii) :
  is_lower_hex c = true ->
  exists d, (d < 16)%N /\ c = digit_char d.
Proof.
  intros H. exists (default 0%N (digit_value c)).
  revert H. destruct c as [[] [] [] [] [] [] [] []]; vm_compute;
    intros H; try discriminate H; split; reflexivity.
Qed.

Lemma hex_pair_decodes (d1 d2 : N) :
  (d1 < 16)%N -> (d2 < 16)%N ->
  Number_isFinite (parseInt (String (digit_char d1) (String (digit_char d2) "")) 16) = true
  /\ byte_hex (ToUint8 (parseInt (String (digit_char d1) (String (digit_char d2) "")) 16))
     = String (digit_char d1) (String (digit_char d2) "").
Proof.
  intros H1 H2. apply N_below_16 in H1. apply N_below_16 in H2. simpl in H1, H2.
  repeat (destruct H1 as [<-|H1]; [|]); try contradiction;
    repeat (destruct H2 as [<-|H2]; [|]); try contradiction;
    vm_compute; split; reflexivity.
Qed.

Lemma hexToBytes_loop_lower_hex (n : nat) (s : string) :
  String.length s = (2 * n)%nat -> string_forall is_lower_hex s = true ->
  exists bs, hexToBytes_loop s 0 n = Ok bs /\ length bs = n /\ _bytesToHex bs = s.
Proof.
  revert s. induction n as [|n IH]; intros s Hlen Hhex.
  - destruct s; [|discriminate]. exists []. repeat split.
  - destruct s as [|c1 [|c2 r]]; try (simpl in Hlen; lia).
    cbn [string_forall] in Hhex.
    apply andb_prop in Hhex as [H1 Hhex]. apply andb_prop in Hhex as [H2 Hr].
    destruct (IH r) as (bs & Hbs & Hl & Hprint); [simpl in Hlen; lia|exact Hr|].
    destruct (lower_hex_digit _ H1) as (d1 & Hd1 & ->).
    destruct (lower_hex_digit _ H2) as (d2 & Hd2 & ->).
    destruct (hex_pair_decodes d1 d2 Hd1 Hd2) as [Hfin Hbyte].
    rewrite hexToBytes_loop_pair. cbv zeta. rewrite Hfin, Hbs. cbn [negb bind].
    eexists. split; [reflexivity|]. split; [simpl; rewrite Hl; reflexivity|].
    cbn [_bytesToHex]. rewrite Hbyte, Hprint. reflexivity.
Qed.

Lemma trimStart_spaces (pre s : string) :
  string_forall is_whitespace pre = true -> trimStart (pre +:+ s) = trimStart s.
Proof.
  induction pre as [|c pre IH]; [reflexivity|].
  cbn [string_forall]. intros [Hc Hpre]%andb_prop.
  rewrite app_cons. cbn [trimStart]. rewrite Hc. apply IH, Hpre.
Qed.

Lemma trimEnd_spaces (post : string) :
  string_forall is_whitespace post = true -> trimEnd post = "".
Proof.
  induction post as [|c post IH]; [reflexivity|].
  cbn [string_forall]. intros [Hc Hpost]%andb_prop.
  cbn [trimEnd]. rewrite (IH Hpost), Hc. reflexivity.
Qed.

Lemma trimEnd_app_spaces (s post : string) :
  string_forall (fun c => negb (is_whitespace c)) s = true ->
  string_forall is_whitespace post = true ->
  trimEnd (s +:+ post) = s.
Proof.
  intros Hs Hpost. induction s as [|c s IH].
  - apply trimEnd_spaces, Hpost.
  - cbn [string_forall] in Hs. apply andb_prop in Hs as [Hc Hs].
    rewrite app_cons. cbn [trimEnd]. rewrite (IH Hs).
    destruct s; [|reflexivity]. destruct (is_whitespace c); [discriminate|reflexivity].
Qed.

(** Trimming removes the whitespace around a string that holds none. *)
Lemma trim_surrounded (pre s post : string) :
  string_forall is_whitespace pre = true ->
  string_forall (fun c => negb (is_whitespace c)) s = true ->
  string_forall is_whitespace post = true ->
  trim (pre +:+ s +:+ post) = s.
Proof.
  intros Hpre Hs Hpost. unfold trim. rewrite (trimStart_spaces _ _ Hpre).
  assert (Hstart : trimStart (s +:+ post) = s +:+ post \/ (s = "" /\ trimStart (s +:+ post) = "")).
  { destruct s as [|c s].
    - right. split; [reflexivity|]. rewrite app_empty_l.
      clear -Hpost. induction post as [|c post IH]; [reflexivity|].
      cbn [string_forall] in Hpost. apply andb_prop in Hpost as [Hc Hpost].
      cbn [trimStart]. rewrite Hc. apply IH, Hpost.
    - left. cbn [string_forall] in Hs. apply andb_prop in Hs as [Hc _].
      rewrite app_cons. cbn [trimStart].
      destruct (is_whitespace c); [discriminate|reflexivity]. }
  destruct Hstart as [->|[-> ->]]; [|reflexivity].
  apply trimEnd_app_spaces; assumption.
Qed.

Lemma toLowerCase_app (s t : string) :
  toLowerCase (s +:+ t) = toLowerCase s +:+ toLowerCase t.
Proof.
  induction s as [|c s IH]; [reflexivity|].
  rewrite app_cons. cbn [toLowerCase]. rewrite IH. reflexivity.
Qed.

Lemma toLowerCase_length (s : string) : String.length (toLowerCase s) = String.length s.
Proof. induction s as [|c s IH]; simpl; [reflexivity|]. rewrite IH. reflexivity. Qed.

Lemma hex_digit_facts (c : ascii) :
  is_radix_digit 16 c = true ->
  is_lower_hex (lower_char c) = true /\ is_whitespace c = false.
Proof. destruct c as [[] [] [] [] [] [] [] []]; vm_compute; intros H; try discriminate H; split; reflexivity. Qed.

Lemma toLowerCase_hex_digits (h : string) :
  string_forall (is_radix_digit 16) h = true ->
  string_forall is_lower_hex (toLowerCase h) = true.
Proof.
  induction h as [|c h IH]; [reflexivity|].
  cbn [string_forall toLowerCase]. intros [Hc Hh]%andb_prop.
  rewrite (proj1 (hex_digit_facts c Hc)), (IH Hh). reflexivity.
Qed.

Lemma substring_full (s : string) : substring 0 (String.length s) s = s.
Proof. induction s as [|c s IH]; [reflexivity|]. simpl. rewrite IH. reflexivity. Qed.

Lemma even_half (n : nat) : Nat.even n = true -> n = (2 * (n / 2))%nat /\ (n mod 2 =? 0)%nat = true.
Proof.
  intros He. apply Nat.even_spec in He as [k ->].
  rewrite Nat.mul_comm, Nat.div_mul, Nat.Div0.mod_mul by lia. split; [lia|reflexivity].
Qed.

Lemma strip_0x_prefix (s : string) :
  (if startsWith (String "0" (String "x" s)) "0x"
   then slice_from (String "0" (String "x" s)) 2
   else String "0" (String "x" s)) = s.
Proof.
  assert (Hp : startsWith (String "0" (String "x" s)) "0x" = true).
  { unfold startsWith. cbn [String.prefix].
    destruct (ascii_dec "0" "0") as [_|Hne]; [|contradiction].
    destruct (ascii_dec "x" "x") as [_|Hne]; [|contradiction].
    destruct s; reflexivity. }
  rewrite Hp. unfold slice_from. cbn [String.length substring].
  replace (S (S (String.length s)) - 2)%nat with (String.length s) by lia.
  apply substring_full.
Qed.

(** What [_hexToBytes] makes of hex digits with whitespace around them and
    an optional prefix: the lower-case digits go to the loop. *)
Lemma hexToBytes_normalizes (pre px h post : string) :
  string_forall is_whitespace pre = true ->
  string_forall is_whitespace post = true ->
  px = "" \/ px = "0x" \/ px = "0X" ->
  string_forall (is_radix_digit 16) h = true ->
  _hexToBytes (JsString (pre +:+ (px +:+ h) +:+ post))
  = if negb (String.length h mod 2 =? 0)%nat then Throw "hex length must be even"
    else hexToBytes_loop (toLowerCase h) 0 (String.length h / 2).
Proof.
  intros Hpre Hpost Hpx Hh.
  pose proof (toLowerCase_hex_digits h Hh) as Hlow.
  unfold _hexToBytes. rewrite ToString_or_empty.
  assert (Hfree : string_forall (fun c => negb (is_whitespace c)) (px +:+ h) = true).
  { rewrite string_forall_app.
    assert (Hh' : string_forall (fun c => negb (is_whitespace c)) h = true).
    { revert Hh. apply string_forall_impl. intros c Hc.
      rewrite (proj2 (hex_digit_facts c Hc)). reflexivity. }
    rewrite Hh'. destruct Hpx as [->|[->| ->]]; reflexivity. }
  rewrite (trim_surrounded _ _ _ Hpre Hfree Hpost), toLowerCase_app.
  assert (Hstrip : (if startsWith (toLowerCase px +:+ toLowerCase h) "0x"
                    then slice_from (toLowerCase px +:+ toLowerCase h) 2
                    else toLowerCase px +:+ toLowerCase h) = toLowerCase h).
  { destruct Hpx as [->|[->| ->]].
    - rewrite app_empty_l, (startsWith_0x_hex _ Hlow). reflexivity.
    - apply (strip_0x_prefix (toLowerCase h)).
    - apply (strip_0x_prefix (toLowerCase h)). }
  rewrite Hstrip, toLowerCase_length. reflexivity.
Qed.

(** Well-formed hex is decoded whatever its case, with or without a 0x
    prefix and with or without whitespace around it: an even number of hex
    digits gives half as many bytes, and printing the bytes gives the digits
    back in lower case. *)
Theorem hexToBytes_wellformed (pre px h post : string) :
  string_forall is_whitespace pre = true ->
  string_forall is_whitespace post = true ->
  px = "" \/ px = "0x" \/ px = "0X" ->
  string_forall (is_radix_digit 16) h = true ->
  Nat.even (String.length h) = true ->
  exists bs,
    _hexToBytes (JsString (pre +:+ (px +:+ h) +:+ post)) = Ok bs
    /\ length bs = (String.length h / 2)%nat
    /\ _bytesToHex bs = toLowerCase h.
Proof.
  intros Hpre Hpost Hpx Hh Heven.
  pose proof (toLowerCase_hex_digits h Hh) as Hlow.
  destruct (even_half _ Heven) as [Hlen Hmod].
  destruct (hexToBytes_loop_lower_hex (String.length h / 2) (toLowerCase h))
    as (bs & Hbs & Hl & Hprint); [rewrite toLowerCase_length; exact Hlen|exact Hlow|].
  exists bs. split; [|split; assumption].
  rewrite (hexToBytes_normalizes _ _ _ _ Hpre Hpost Hpx Hh), Hmod. exact Hbs.
Qed.

(** The edges of [_hexToBytes] and [importSeed]: an odd number of hex
    digits is refused with "hex length must be even" (prefix and
    surrounding whitespace not counted), and a missing or empty argument
    decodes to no bytes at all, so that [importSeed] refuses it with "seed
    must be 32 bytes" and leaves the store alone. *)
Theorem hexToBytes_edges (w : World) :
  (forall pre px h post,
     string_forall is_whitespace pre = true ->
     string_forall is_whitespace post = true ->
     px = "" \/ px = "0x" \/ px = "0X" ->
     string_forall (is_radix_digit 16) h = true ->
     Nat.odd (String.length h) = true ->
     _hexToBytes (JsString (pre +:+ (px +:+ h) +:+ post)) = Throw "hex length must be even"
     /\ importSeed w (JsString (pre +:+ (px +:+ h) +:+ post))
        = (Throw "hex length must be even", w))
  /\ (forall v, ToBoolean v = false ->
        _hexToBytes v = Ok []
        /\ importSeed w v = (Throw "seed must be 32 bytes", w)).
Proof.
  split.
  - intros pre px h post Hpre Hpost Hpx Hh Hodd.
    assert (E : _hexToBytes (JsString (pre +:+ (px +:+ h) +:+ post))
                = Throw "hex length must be even").
    { rewrite (hexToBytes_normalizes _ _ _ _ Hpre Hpost Hpx Hh).
      apply Nat.odd_spec in Hodd as [k Hk]. rewrite Hk.
      replace (2 * k + 1)%nat with (1 + k * 2)%nat by lia.
      rewrite Nat.Div0.mod_add. reflexivity. }
    split; [exact E|]. unfold importSeed. rewrite E. reflexivity.
  - intros v Hv.
    assert (E : _hexToBytes v = Ok []).
    { unfold _hexToBytes, JsOr. rewrite Hv. reflexivity. }
    split; [exact E|]. unfold importSeed. rewrite E. reflexivity.
Qed.

(** ** The canonical message can be read in one way only *)

Lemma unescape_escape_char (c : ascii) (rest : string) :
  unescape_first (escape_char c +:+ rest) = Some (c, rest).
Proof. destruct c as [[] [] [] [] [] [] [] []]; vm_compute; reflexivity. Qed.

Lemma unescape_quote (rest : string) : unescape_first (String DQUOTE rest) = None.
Proof. reflexivity. Qed.

(** An escaped string ends at the first quote that is not escaped. *)
Lemma escape_string_delimited (s s' r r' : string) :
  escape_string s +:+ String DQUOTE r = escape_string s' +:+ String DQUOTE r' ->
  s = s' /\ r = r'.
Proof.
  revert s'. induction s as [|c s IH]; intros [|c' s'] E.
  - rewrite !app_empty_l in E. injection E as ->. split; reflexivity.
  - cbn [escape_string] in E. rewrite app_empty_l, app_assoc3 in E.
    apply (f_equal unescape_first) in E.
    rewrite unescape_quote, unescape_escape_char in E. discriminate.
  - cbn [escape_string] in E. rewrite app_empty_l, app_assoc3 in E.
    apply (f_equal unescape_first) in E.
    rewrite unescape_quote, unescape_escape_char in E. discriminate.
  - cbn [escape_string] in E. rewrite !app_assoc3 in E.
    pose proof (f_equal unescape_first E) as E1.
    rewrite !unescape_escape_char in E1. injection E1 as -> E2.
    destruct (IH _ E2) as [-> ->]. split; reflexivity.
Qed.

Lemma comma_delimited (a a' r r' : string) :
  has_char "," a = false -> has_char "," a' = false ->
  a +:+ String "," r = a' +:+ String "," r' -> a = a' /\ r = r'.
Proof.
  revert a'. induction a as [|c a IH]; intros [|c' a'] Ha Ha' E.
  - rewrite !app_empty_l in E. injection E as ->. split; reflexivity.
  - rewrite app_empty_l, app_cons in E. injection E as <- _.
    rewrite has_char_cons in Ha'. discriminate.
  - rewrite app_empty_l, app_cons in E. injection E as -> _.
    rewrite has_char_cons in Ha. discriminate.
  - rewrite !app_cons in E. injection E as -> E.
    rewrite has_char_cons in Ha, Ha'.
    apply orb_false_elim in Ha as [_ Ha]. apply orb_false_elim in Ha' as [_ Ha'].
    destruct (IH _ Ha Ha' E) as [-> ->]. split; reflexivity.
Qed.

Lemma numeric_no_comma (a : string) :
  string_forall is_numeric_char a = true -> has_char "," a = false.
Proof.
  intros H. unfold has_char. apply negb_false_iff. revert H.
  apply string_forall_impl. intros c Hc.
  apply negb_true_iff, Ascii.eqb_neq. intros ->. discriminate.
Qed.

Lemma wire_shape_inj (a f m n t a' f' m' n' t' : string) :
  has_char "," a = false -> has_char "," a' = false ->
  wire_shape a f m n t = wire_shape a' f' m' n' t' ->
  a = a' /\ f = f' /\ m = m' /\ n = n' /\ t = t'.
Proof.
  intros Ha Ha' E. unfold wire_shape, quoted in E.
  rewrite !app_cons, !app_empty_l, !app_assoc3, !app_cons, !app_empty_l in E.
  repeat (injection E as E).
  apply comma_delimited in E as [-> E]; try assumption.
  repeat (injection E as E). apply escape_string_delimited in E as [-> E].
  repeat (injection E as E). apply escape_string_delimited in E as [-> E].
  repeat (injection E as E). apply escape_string_delimited in E as [-> E].
  repeat (injection E as E). apply escape_string_delimited in E as [-> _].
  repeat split.
Qed.

(** Two calls of [_canonicalTxJson] that give the same message were given
    the same rendered amount and the same from, memo, nonce and to strings:
    no two different transfers share a canonical message, whatever quotes,
    backslashes, commas or braces their strings hold. *)
Theorem canonicalTxJson_injective (fromAddr toAddr : JsValue) (amountRtc : Number)
    (memo nonceStr : JsValue) (fromAddr' toAddr' : JsValue) (amountRtc' : Number)
    (memo' nonceStr' : JsValue) (msg : string) :
  _canonicalTxJson fromAddr toAddr amountRtc memo nonceStr = Ok msg ->
  _canonicalTxJson fromAddr' toAddr' amountRtc' memo' nonceStr' = Ok msg ->
  _pyFloatRepr amountRtc = _pyFloatRepr amountRtc'
  /\ ToString (JsOr fromAddr (JsString "")) = ToString (JsOr fromAddr' (JsString ""))
  /\ ToString (JsOr memo (JsString "")) = ToString (JsOr memo' (JsString ""))
  /\ ToString (JsOr nonceStr (JsString "")) = ToString (JsOr nonceStr' (JsString ""))
  /\ ToString (JsOr toAddr (JsString "")) = ToString (JsOr toAddr' (JsString "")).
Proof.
  intros H H'.
  destruct (_pyFloatRepr amountRtc) as [a|] eqn:Ha;
    [|unfold _canonicalTxJson in H; rewrite Ha in H; discriminate].
  destruct (_pyFloatRepr amountRtc') as [a'|] eqn:Ha';
    [|unfold _canonicalTxJson in H'; rewrite Ha' in H'; discriminate].
  rewrite (canonicalTxJson_shape _ _ _ _ _ _ Ha) in H.
  rewrite (canonicalTxJson_shape _ _ _ _ _ _ Ha') in H'.
  injection H as H. injection H' as H'. rewrite <- H' in H.
  apply wire_shape_inj in H as (-> & Hf & Hm & Hn & Ht);
    [|apply numeric_no_comma, (pyFloatRepr_numeric _ _ Ha)
     |apply numeric_no_comma, (pyFloatRepr_numeric _ _ Ha')].
  repeat split; assumption.
Qed.

(** ** The amount always reads as a float *)

(** Whatever finite amount it is given, [_pyFloatRepr] returns a number
    made of digits, point, exponent mark and sign that holds a point or an
    exponent mark: a JSON reader never takes it for an integer. *)
Theorem pyFloatRepr_float_literal (x : Number) (r : string) :
  _pyFloatRepr x = Ok r ->
  string_forall is_numeric_char r = true
  /\ has_char "." r || has_char "e" r = true.
Proof.
  intros H. split; [apply (pyFloatRepr_numeric _ _ H)|].
  assert (Hfin : Number_isFinite x = true).
  { unfold _pyFloatRepr in H. destruct (Number_isFinite x); [reflexivity|discriminate]. }
  rewrite (pyFloatRepr_finite x Hfin) in H.
  assert (HE : has_char "E" (Number_toString x) = false).
  { unfold has_char. apply negb_false_iff.
    generalize (Number_toString_numeric x Hfin). apply string_forall_impl.
    intros c Hc. apply negb_true_iff, Ascii.eqb_neq. intros ->. discriminate. }
  rewrite HE in H. cbn [negb] in H. rewrite andb_true_r in H.
  destruct (has_char "." (Number_toString x)) eqn:Hp;
    destruct (has_char "e" (Number_toString x)) eqn:He;
    cbn [negb andb] in H; injection H as <-;
    rewrite ?has_char_app, ?Hp, ?He, ?orb_true_r; reflexivity.
Qed.

(** ** What [signTransfer] answers *)

(** The checks of [signTransfer] come in a fixed order: the wallet (an
    error of [getWallet] is passed on, an empty store gives "no local
    wallet"), then the nonce ("invalid nonce"), then the amount ("amount
    not finite"); when all three pass the call succeeds. *)
Theorem signTransfer_outcomes (w : World) (toAddr : JsValue) (amountRtc : Number)
    (memo nonceInt : JsValue) :
  (forall m, getWallet w = Throw m ->
     signTransfer w toAddr amountRtc memo nonceInt = Throw m)
  /\ (getWallet w = Ok None ->
      signTransfer w toAddr amountRtc memo nonceInt = Throw NoWalletError)
  /\ (forall wallet, getWallet w = Ok (Some wallet) ->
      (parseInt_integer (ToString nonceInt) 10 = None ->
       signTransfer w toAddr amountRtc memo nonceInt = Throw InvalidNonceError)
      /\ (parseInt_integer (ToString nonceInt) 10 <> None ->
          Number_isFinite amountRtc = false ->
          signTransfer w toAddr amountRtc memo nonceInt = Throw NonFiniteAmountError)
      /\ (parseInt_integer (ToString nonceInt) 10 <> None ->
          Number_isFinite amountRtc = true ->
          exists p, signTransfer w toAddr amountRtc memo nonceInt = Ok p
                    /\ Payload.from_address p = Wallet.address wallet
                    /\ Payload.public_key p = Wallet.publicKeyHex wallet)).
Proof.
  split; [|split].
  - intros m Hw. unfold signTransfer. rewrite Hw. reflexivity.
  - intros Hw. unfold signTransfer. rewrite Hw. reflexivity.
  - intros wallet Hw.
    assert (Hparsed : parseInt_integer (ToString nonceInt) 10 <> None ->
              negb (ToBoolean (JsString (Number_toString (parseInt (ToString nonceInt) 10))))
              || (Number_toString (parseInt (ToString nonceInt) 10) =? "NaN")%string = false).
    { intros Hp. rewrite nonce_check.
      destruct (parseInt (ToString nonceInt) 10) eqn:E; try reflexivity.
      apply parseInt_NaN in E. contradiction. }
    split; [|split].
    + intros Hnone. unfold signTransfer. rewrite Hw. cbn [bind].
      rewrite nonce_check. apply parseInt_NaN in Hnone. rewrite Hnone. reflexivity.
    + intros Hp Hfin. unfold signTransfer. rewrite Hw. cbn [bind].
      rewrite (Hparsed Hp). unfold _canonicalTxJson, _pyFloatRepr. rewrite Hfin. reflexivity.
    + intros Hp Hfin. unfold signTransfer. rewrite Hw. cbn [bind].
      rewrite (Hparsed Hp).
      destruct (_pyFloatRepr amountRtc) as [a|] eqn:Ha;
        [|unfold _pyFloatRepr in Ha; rewrite Hfin in Ha; cbn [negb] in Ha;
          destruct (_ && _); discriminate].
      rewrite (canonicalTxJson_shape _ _ _ _ _ _ Ha). cbn [bind].
      eexists. split; [reflexivity|]. split; reflexivity.
Qed.

(** ** The store *)

(** [getWallet] answers null exactly when the seed slot is missing or holds
    nothing but whitespace; any other stored value either gives a wallet or
    makes [getWallet] throw. *)
Theorem getWallet_null_iff_blank (w : World) :
  getWallet w = Ok None
  <-> (localStorage w !! STORAGE_SEED = None
       \/ exists v, localStorage w !! STORAGE_SEED = Some v /\ trim v = "").
Proof.
  unfold getWallet, getSeedHex, getItem. split.
  - destruct (localStorage w !! STORAGE_SEED) as [v|]; [|left; reflexivity].
    rewrite ToString_or_empty. intros H. right. exists v. split; [reflexivity|].
    destruct (trim v); [reflexivity|]. cbn [ToBoolean negb] in H.
    destruct (_walletFromSeedHex _); discriminate.
  - intros [->|(v & -> & Hv)]; [reflexivity|].
    rewrite ToString_or_empty, Hv. reflexivity.
Qed.

(** The wallet reads and writes one key of [localStorage]: generating,
    importing and clearing leave every other key as it was. *)
Theorem other_keys_untouched (w : World) (op : WalletOp) (key : string) :
  key <> STORAGE_SEED ->
  localStorage (snd (perform w op)) !! key = localStorage w !! key
  /\ localStorage (clearWallet w) !! key = localStorage w !! key.
Proof.
  intros Hkey. split.
  - destruct op as [|seedHex]; cbn [perform].
    + destruct (generateWallet_cases w) as (seed & _ & _ & ->).
      apply lookup_insert_ne. congruence.
    + destruct (importSeed_cases w seedHex) as [(m & _ & ->)|(seed & _ & _ & ->)];
        [reflexivity|].
      cbn [snd setItem localStorage]. apply lookup_insert_ne. congruence.
  - unfold clearWallet, removeItem. cbn [localStorage]. apply lookup_delete_ne. congruence.
Qed.

(** What [_walletFromSeedHex] returns. *)
Lemma walletFromSeedHex_fields (seedHex : JsValue) (wallet : Wallet.t) :
  _walletFromSeedHex seedHex = Ok wallet ->
  exists seed,
    _hexToBytes seedHex = Ok seed /\ length seed = 32%nat
    /\ wallet = Wallet.mk (_bytesToHex seed)
                  (_bytesToHex (KeyPair.publicKey (nacl_sign_keyPair_fromSeed seed)))
                  (derive SHA256 (KeyPair.publicKey (nacl_sign_keyPair_fromSeed seed)))
                  (KeyPair.secretKey (nacl_sign_keyPair_fromSeed seed)).
Proof.
  unfold _walletFromSeedHex. destruct (negb nacl_loaded); [discriminate|].
  destruct (_hexToBytes seedHex) as [seed|]; cbn [bind]; [|discriminate].
  destruct (Nat.eqb_spec (length seed) 32) as [Hlen|]; cbn [negb]; [|discriminate].
  intros [= <-]. exists seed. split; [reflexivity|]. split; [exact Hlen|].
  f_equal. unfold derive, _sha256Hex, slice. f_equal. apply (substring_bytesToHex 20).
Qed.

(** With a library that returns 32-byte public keys and 64-byte signatures
    and a hash of 32 bytes, every signed payload has the sizes of the
    transport schema: a public key of 64 and a signature of 128 lower-case
    hex digits, and an address of 43 characters. *)
Theorem payload_sizes (w : World) (toAddr : JsValue) (amountRtc : Number)
    (memo nonceInt : JsValue) (p : Payload.t) :
  (forall seed, length (KeyPair.publicKey (nacl_sign_keyPair_fromSeed seed)) = 32%nat) ->
  (forall msg key, length (nacl_sign_detached msg key) = 64%nat) ->
  (forall m, length (SHA256 m) = 32%nat) ->
  signTransfer w toAddr amountRtc memo nonceInt = Ok p ->
  is_seed_format (Payload.public_key p) = true
  /\ String.length (Payload.signature p) = 128%nat
  /\ string_forall is_lower_hex (Payload.signature p) = true
  /\ String.length (Payload.from_address p) = 43%nat.
Proof.
  intros Hpk Hsig Hsha H.
  apply signTransfer_Ok in H as (wallet & amount & neg & v & Hw & _ & _ & ->).
  cbn [Payload.public_key Payload.signature Payload.from_address].
  assert (Hwallet : exists h, _walletFromSeedHex h = Ok wallet).
  { unfold getWallet in Hw. destruct (negb _); [discriminate|].
    destruct (_walletFromSeedHex _) as [wl|] eqn:E; cbn [bind] in Hw; [|discriminate].
    injection Hw as <-. eauto. }
  destruct Hwallet as [h Hwallet].
  apply walletFromSeedHex_fields in Hwallet as (seed & _ & _ & ->).
  cbn [Wallet.publicKeyHex Wallet.address].
  split; [apply seed_format_bytesToHex, Hpk|].
  split; [rewrite bytesToHex_length, Hsig; reflexivity|].
  split; [apply bytesToHex_lower_hex|].
  unfold derive. rewrite string_length_app, bytesToHex_length, length_firstn, Hsha.
  reflexivity.
Qed.

(** With the library loaded, [generateWallet] succeeds, and [getWallet]
    then returns the wallet it returned. *)
Theorem generate_then_get (w : World) :
  nacl_loaded = true ->
  exists wallet,
    fst (generateWallet w) = Ok wallet
    /\ getWallet (snd (generateWallet w)) = Ok (Some wallet)
    /\ localStorage (snd (generateWallet w)) !! STORAGE_SEED = Some (Wallet.seedHex wallet)
    /\ is_seed_format (Wallet.seedHex wallet) = true.
Proof.
  intros Hn. destruct (generateWallet_cases w) as (seed & Hlen & Hfst & Hst).
  destruct (walletFromSeedHex_loaded seed Hn Hlen) as [wallet Hwallet].
  exists wallet. rewrite Hfst. split; [exact Hwallet|].
  pose proof (walletFromSeedHex_seedHex _ _ Hwallet) as Hhex.
  assert (Hslot : localStorage (snd (generateWallet w)) !! STORAGE_SEED
                  = Some (_bytesToHex seed)) by (rewrite Hst; apply lookup_insert_eq).
  split; [|split].
  - apply (getWallet_stored _ seed); try assumption.
    unfold getSeedHex, getItem. rewrite Hslot, ToString_or_empty.
    apply trim_hex, bytesToHex_lower_hex.
  - rewrite Hhex. exact Hslot.
  - rewrite Hhex. apply seed_format_bytesToHex, Hlen.
Qed.

Lemma slot_ok_apply_op (w : World) (op : StoreOp) : slot_ok w -> slot_ok (apply_op w op).
Proof.
  intros Hw. destruct op as [|seedHex|]; cbn [apply_op].
  - destruct (generateWallet_cases w) as (seed & Hlen & _ & Hst).
    unfold slot_ok. rewrite Hst, lookup_insert_eq. apply seed_format_bytesToHex, Hlen.
  - destruct (importSeed_cases w seedHex) as [(m & _ & ->)|(seed & _ & Hlen & ->)];
      [exact Hw|].
    unfold slot_ok. cbn [snd setItem localStorage].
    rewrite lookup_insert_eq. apply seed_format_bytesToHex, Hlen.
  - unfold slot_ok, clearWallet, removeItem. cbn [localStorage].
    rewrite lookup_delete_eq. exact I.
Qed.

Lemma seed_format_decodes (s : string) :
  is_seed_format s = true -> exists seed, length seed = 32%nat /\ _bytesToHex seed = s.
Proof.
  unfold is_seed_format. intros [Hlen Hhex]%andb_prop. apply Nat.eqb_eq in Hlen.
  destruct (hexToBytes_loop_lower_hex 32 s Hlen Hhex) as (bs & _ & Hl & Hprint).
  exists bs. split; assumption.
Qed.

(** A store that only the wallet writes to never holds a corrupt seed:
    starting from a seed slot that is empty or well-formed, after any
    history of generating, importing (also of seeds that are refused) and
    clearing, the slot is empty or holds 64 lower-case hex digits, and with
    the library loaded [getWallet] returns null or a wallet and never
    throws. *)
Theorem store_never_corrupt (w : World) (ops : list StoreOp) :
  slot_ok w ->
  slot_ok (apply_ops w ops)
  /\ (nacl_loaded = true -> exists r, getWallet (apply_ops w ops) = Ok r).
Proof.
  intros Hw.
  assert (Hinv : slot_ok (apply_ops w ops)).
  { unfold apply_ops. revert w Hw. induction ops as [|op ops IH]; intros w Hw; [exact Hw|].
    cbn [fold_left]. apply IH, slot_ok_apply_op, Hw. }
  split; [exact Hinv|]. intros Hn.
  unfold slot_ok in Hinv.
  destruct (localStorage (apply_ops w ops) !! STORAGE_SEED) as [s|] eqn:Hslot.
  - destruct (seed_format_decodes s Hinv) as (seed & Hlen & <-).
    destruct (walletFromSeedHex_loaded seed Hn Hlen) as [wallet Hwallet].
    exists (Some wallet). apply (getWallet_stored _ seed); try assumption.
    unfold getSeedHex, getItem. rewrite Hslot, ToString_or_empty.
    apply trim_hex, bytesToHex_lower_hex.
  - exists None. unfold getWallet, getSeedHex, getItem. rewrite Hslot. reflexivity.
Qed.

End WalletFunctions.

(** * Concrete runs *)

(** ** C2: the amount rule *)

(** The examples of the specification: 1, 100, 0.01 and 2.5. *)
Example pyFloatRepr_examples :
  _pyFloatRepr (Finite false 1 1) = Ok "1.0"
  /\ _pyFloatRepr (Finite false 1 3) = Ok "100.0"
  /\ _pyFloatRepr (Finite false 1 (-1)) = Ok "0.01"
  /\ _pyFloatRepr (Finite false 25 1) = Ok "2.5"
  /\ _pyFloatRepr NaN = Throw NonFiniteAmountError
  /\ _pyFloatRepr (Infinity false) = Throw NonFiniteAmountError
  /\ _pyFloatRepr (Infinity true) = Throw NonFiniteAmountError.
Proof. repeat split; vm_compute; reflexivity. Qed.

(** C2 as stated fails at 1e21: the value is the integer 10^21, the rule
    asks for its decimal digits followed by ".0", and [_pyFloatRepr]
    answers "1e+21". *)
Lemma pyFloatRepr_1e21_counterexample :
  wf_Number (Finite false 1 22)
  /\ integer_value (Finite false 1 22) = Some (10 ^ 21)%Z
  /\ canonical_amount_spec (Finite false 1 22) = Ok "1000000000000000000000.0"
  /\ _pyFloatRepr (Finite false 1 22) = Ok "1e+21"
  /\ _pyFloatRepr (Finite false 1 22) <> canonical_amount_spec (Finite false 1 22).
Proof.
  split; [split; [reflexivity|vm_compute; discriminate]|].
  repeat split; vm_compute; (reflexivity || discriminate).
Qed.

Lemma pyFloatRepr_canonical_amended_witness :
  wf_Number (Finite false 25 1)
  /\ _pyFloatRepr (Finite false 25 1) = canonical_amount_spec (Finite false 25 1).
Proof.
  assert (Hwf : wf_Number (Finite false 25 1))
    by (split; [reflexivity|vm_compute; discriminate]).
  split; [exact Hwf|].
  apply (proj1 (proj2 (pyFloatRepr_canonical_amended (Finite false 25 1) Hwf)));
    reflexivity.
Defined.

(** Runs a call on a concrete input and offers its result as the witness of
    the goal's existential. *)
Ltac exists_result call :=
  let r := eval vm_compute in call in
  lazymatch r with
  | Ok ?p => exists p
  | (Ok ?p, _) => exists p
  end.

(** ** C1 and C10: a signed transfer *)

Lemma canonical_message_format_witness :
  exists p,
    signTransfer true stub_fromSeed stub_detached stub_SHA256 unlocked_world
      (JsString "RTCabc") (Finite false 25 1) (JsString "hi")
      (JsNumber (Finite false 1 1)) = Ok p
    /\ Payload.canonical_message p
       = wire_shape "2.5" "RTC0102030405060708090a0b0c0d0e0f1011121314" "hi" "1" "RTCabc".
Proof.
  exists_result (signTransfer true stub_fromSeed stub_detached stub_SHA256 unlocked_world
                   (JsString "RTCabc") (Finite false 25 1) (JsString "hi")
                   (JsNumber (Finite false 1 1))).
  match goal with |- ?H /\ _ => assert (Hrun : H) by (vm_compute; reflexivity) end.
  split; [exact Hrun|].
  destruct (canonical_message_format _ _ _ _ _ _ _ _ _ _ Hrun)
    as (amount & wallet & Ha & _ & Hmsg & _).
  vm_compute in Ha. injection Ha as <-. rewrite Hmsg. vm_compute. reflexivity.
Defined.

Lemma payload_memo_is_message_memo_witness :
  exists p,
    signTransfer true stub_fromSeed stub_detached stub_SHA256 unlocked_world
      (JsString "RTCabc") (Finite false 1 1) JsNull (JsNumber (Finite false 7 1)) = Ok p
    /\ Payload.memo p = ""
    /\ Payload.canonical_message p
       = wire_shape "1.0" "RTC0102030405060708090a0b0c0d0e0f1011121314" "" "7" "RTCabc".
Proof.
  exists_result (signTransfer true stub_fromSeed stub_detached stub_SHA256 unlocked_world
                   (JsString "RTCabc") (Finite false 1 1) JsNull
                   (JsNumber (Finite false 7 1))).
  match goal with |- ?H /\ _ => assert (Hrun : H) by (vm_compute; reflexivity) end.
  split; [exact Hrun|].
  destruct (payload_memo_is_message_memo _ _ _ _ _ _ _ _ _ _ Hrun)
    as (_ & Hfalsy & amount & Ha & Hmsg).
  split; [apply Hfalsy; reflexivity|].
  vm_compute in Ha. injection Ha as <-. rewrite Hmsg. vm_compute. reflexivity.
Defined.

(** ** C3: the nonce *)



(** Between 2^53 and 10^21 the nonce is rounded to a double on reading,
    and the payload still carries the integer that the message spells:
    2^53 + 1 is signed as "9007199254740992" and returned as
    9007199254740992. *)
Example signTransfer_rounded_nonce :
  exists p,
    signTransfer true stub_fromSeed stub_detached stub_SHA256 unlocked_world
      (JsString "RTCabc") (Finite false 25 1) (JsString "hi")
      (JsString "9007199254740993") = Ok p
    /\ Payload.nonce p = Number_of_integer false 9007199254740992
    /\ Payload.canonical_message p
       = wire_shape "2.5" "RTC0102030405060708090a0b0c0d0e0f1011121314" "hi"
           (integer_string false 9007199254740992) "RTCabc".
Proof.
  exists_result (signTransfer true stub_fromSeed stub_detached stub_SHA256 unlocked_world
                   (JsString "RTCabc") (Finite false 25 1) (JsString "hi")
                   (JsString "9007199254740993")).
  repeat split; vm_compute; reflexivity.
Qed.

(** From 10^21 on the string form of the number read is in exponent
    notation, and reading it back stops at the exponent mark: the nonce
    10^21 is signed as "1e+21" and returned as 1. *)
Example signTransfer_large_nonce :
  exists p,
    signTransfer true stub_fromSeed stub_detached stub_SHA256 unlocked_world
      (JsString "RTCabc") (Finite false 25 1) (JsString "hi")
      (JsString "1000000000000000000000") = Ok p
    /\ Payload.nonce p = Finite false 1 1
    /\ Payload.canonical_message p
       = wire_shape "2.5" "RTC0102030405060708090a0b0c0d0e0f1011121314" "hi" "1e+21"
           "RTCabc".
Proof.
  exists_result (signTransfer true stub_fromSeed stub_detached stub_SHA256 unlocked_world
                   (JsString "RTCabc") (Finite false 25 1) (JsString "hi")
                   (JsString "1000000000000000000000")).
  repeat split; vm_compute; reflexivity.
Qed.

(** ** C4: importing a seed *)

(** The rejections the specification lists: 31 bytes, an odd number of
    digits, a pair that starts with no hex digit. *)
Example importSeed_rejections :
  fst (importSeed true stub_fromSeed stub_SHA256 empty_world
         (JsString "00000000000000000000000000000000000000000000000000000000000000"))
  = Throw "seed must be 32 bytes"
  /\ fst (importSeed true stub_fromSeed stub_SHA256 empty_world (JsString "0x123"))
     = Throw "hex length must be even"
  /\ fst (importSeed true stub_fromSeed stub_SHA256 empty_world (JsString "zz"))
     = Throw "invalid hex"
  /\ fst (importSeed true stub_fromSeed stub_SHA256 empty_world JsNull)
     = Throw "seed must be 32 bytes".
Proof. repeat split; vm_compute; reflexivity. Qed.

(** Upper case and a 0x prefix are accepted and stored in lower case. *)
Example importSeed_normalizes :
  localStorage (snd (importSeed true stub_fromSeed stub_SHA256 empty_world
                       (JsString seed_01))) !! STORAGE_SEED
  = Some seed_01_hex.
Proof. vm_compute. reflexivity. Qed.

(** C4, the defect.  [parseInt] reads the longest prefix of hex digits of
    each pair, so a pair such as "0g" passes the "invalid hex" check: the
    64-character string [seed_0g] holds the character g, which is no hex
    digit, and is imported as the all-zero seed instead of being rejected. *)
Lemma importSeed_accepts_malformed_hex :
  String.length seed_0g = 64%nat
  /\ string_forall (is_radix_digit 16) seed_0g = false
  /\ exists wallet,
       fst (importSeed true stub_fromSeed stub_SHA256 empty_world (JsString seed_0g))
       = Ok wallet
       /\ Wallet.seedHex wallet = seed_zero_hex
       /\ localStorage (snd (importSeed true stub_fromSeed stub_SHA256 empty_world
                               (JsString seed_0g))) !! STORAGE_SEED
          = Some seed_zero_hex.
Proof.
  split; [reflexivity|]. split; [vm_compute; reflexivity|].
  exists_result (importSeed true stub_fromSeed stub_SHA256 empty_world (JsString seed_0g)).
  repeat split; vm_compute; reflexivity.
Qed.

(** ** C5: a failing call and the store *)

(** C5 as stated fails when the library is not loaded: [importSeed] throws
    "nacl not loaded", and the seed slot, empty before the call, holds the
    new seed after it. *)
Lemma importSeed_unloaded_counterexample :
  fst (importSeed false stub_fromSeed stub_SHA256 empty_world (JsString seed_01))
  = Throw CryptoUnavailableError
  /\ localStorage empty_world !! STORAGE_SEED = None
  /\ localStorage (snd (importSeed false stub_fromSeed stub_SHA256 empty_world
                          (JsString seed_01))) !! STORAGE_SEED
     = Some seed_01_hex.
Proof. repeat split; vm_compute; reflexivity. Qed.

(** The same for [generateWallet]. *)
Example generateWallet_unloaded :
  fst (generateWallet false stub_fromSeed stub_SHA256 empty_world)
  = Throw CryptoUnavailableError
  /\ localStorage (snd (generateWallet false stub_fromSeed stub_SHA256 empty_world))
       !! STORAGE_SEED
     = Some "030a11181f262d343b424950575e656c737a81888f969da4abb2b9c0c7ced5dc".
Proof. repeat split; vm_compute; reflexivity. Qed.

Lemma failed_write_leaves_store_witness :
  perform true stub_fromSeed stub_SHA256 unlocked_world (OpImport (JsString "0x123"))
  = (Throw "hex length must be even", unlocked_world)
  /\ localStorage (snd (perform true stub_fromSeed stub_SHA256 unlocked_world
                          (OpImport (JsString "0x123")))) !! STORAGE_SEED
     = Some seed_01_hex.
Proof.
  assert (Hrun : perform true stub_fromSeed stub_SHA256 unlocked_world
                   (OpImport (JsString "0x123"))
                 = (Throw "hex length must be even", unlocked_world))
    by (vm_compute; reflexivity).
  split; [exact Hrun|].
  destruct (failed_write_leaves_store _ _ _ _ _ _ _ Hrun) as [[_ Hsame]|(_ & Hn & _)];
    [|discriminate Hn].
  rewrite Hrun. vm_compute. reflexivity.
Defined.

(** ** C6: the address *)

Lemma address_derivation_witness :
  (forall m, length (stub_SHA256 m) = 32%nat)
  /\ exists wallet,
       _walletFromSeedHex true stub_fromSeed stub_SHA256 (JsString seed_01) = Ok wallet
       /\ Wallet.address wallet = "RTC0102030405060708090a0b0c0d0e0f1011121314"
       /\ String.length (Wallet.address wallet) = 43%nat.
Proof.
  assert (Hsha : forall m, length (stub_SHA256 m) = 32%nat).
  { intros m. unfold stub_SHA256. rewrite length_firstn, length_app, repeat_length. lia. }
  split; [exact Hsha|].
  exists_result (_walletFromSeedHex true stub_fromSeed stub_SHA256 (JsString seed_01)).
  match goal with |- ?H /\ _ => assert (Hrun : H) by (vm_compute; reflexivity) end.
  split; [exact Hrun|].
  destruct (address_derivation _ _ _ _ _ Hsha Hrun) as (_ & Hlen & _).
  split; [vm_compute; reflexivity|exact Hlen].
Defined.

(** ** C8: import, then get *)

Lemma import_then_get_same_wallet_witness :
  exists wallet w',
    importSeed true stub_fromSeed stub_SHA256 empty_world (JsString seed_01)
    = (Ok wallet, w')
    /\ getWallet true stub_fromSeed stub_SHA256 w' = Ok (Some wallet)
    /\ Wallet.address wallet = "RTC0102030405060708090a0b0c0d0e0f1011121314".
Proof.
  exists_result (importSeed true stub_fromSeed stub_SHA256 empty_world (JsString seed_01)).
  exists unlocked_world.
  match goal with |- ?H /\ _ => assert (Hrun : H) by (vm_compute; reflexivity) end.
  split; [exact Hrun|].
  split; [exact (proj1 (import_then_get_same_wallet _ _ _ _ _ _ _ Hrun))|].
  vm_compute. reflexivity.
Defined.

(** ** C7: generate, import, clear *)

Lemma clear_locks_store_witness :
  localStorage (run_ops true stub_fromSeed stub_SHA256 empty_world
                  [OpGenerate; OpImport (JsString seed_01)]) !! STORAGE_SEED
  = Some seed_01_hex
  /\ getWallet true stub_fromSeed stub_SHA256
       (clearWallet (run_ops true stub_fromSeed stub_SHA256 empty_world
                       [OpGenerate; OpImport (JsString seed_01)]))
     = Ok None.
Proof.
  split; [vm_compute; reflexivity|].
  exact (proj1 (proj2 (clear_locks_store true stub_fromSeed stub_detached stub_SHA256
                         empty_world [OpGenerate; OpImport (JsString seed_01)]
                         JsNull NaN JsNull JsNull))).
Defined.

(** ** Importing the hex of 32 bytes *)

Lemma importSeed_valid_seed_witness :
  length (repeat Byte.x2a 32) = 32%nat
  /\ exists wallet,
       importSeed true stub_fromSeed stub_SHA256 empty_world
         (JsString (_bytesToHex (repeat Byte.x2a 32)))
       = (Ok wallet,
          setItem empty_world STORAGE_SEED (_bytesToHex (repeat Byte.x2a 32)))
       /\ Wallet.seedHex wallet = _bytesToHex (repeat Byte.x2a 32).
Proof.
  split; [reflexivity|].
  exact (importSeed_valid_seed true stub_fromSeed stub_SHA256 empty_world
           (repeat Byte.x2a 32) eq_refl eq_refl).
Defined.

(** * Properties of the page scripts *)

(** ** The path prefix *)

Lemma endsWith_slash_snoc (p : string) : endsWith (p +:+ "/") "/" = true.
Proof.
  unfold endsWith. rewrite string_length_app. cbn [String.length].
  replace (String.length p + 1 - 1)%nat with (String.length p + 0)%nat by lia.
  rewrite substring_app_skip.
  destruct (Nat.leb_spec 1 (String.length p + 1)); [reflexivity|lia].
Qed.

Lemma slice_drop_last_snoc (p : string) (c : ascii) :
  slice_drop_last (p +:+ String c "") = p.
Proof.
  unfold slice_drop_last. rewrite string_length_app. cbn [String.length].
  replace (String.length p + 1 - 1)%nat with (String.length p) by lia.
  induction p as [|a p IH]; [reflexivity|].
  rewrite app_cons. cbn [String.length substring]. rewrite IH. reflexivity.
Qed.

Lemma prefixPath_of_content (content : string) (path : JsValue) :
  prefixPath (page_with_prefix content) path
  = (if endsWith content "/" then slice_drop_last content else content)
    +:+ (if ToBoolean path then ToString path else "").
Proof.
  unfold prefixPath, getMeta, page_with_prefix. cbn [metas].
  rewrite lookup_singleton_eq. cbn [getAttribute_content]. rewrite ToString_or_empty.
  destruct (ToBoolean path); cbn [negb]; [reflexivity|]. rewrite app_empty_r. reflexivity.
Qed.

(** One trailing slash of the prefix is ignored: a page whose prefix is
    [p/] links exactly where a page whose prefix is [p] links, namely to
    [p] followed by the path, provided [p] itself does not end in a slash;
    a falsy path gives the prefix alone. *)
Theorem prefixPath_trailing_slash (p : string) (path : JsValue) :
  endsWith p "/" = false ->
  prefixPath (page_with_prefix (p +:+ "/")) path = prefixPath (page_with_prefix p) path
  /\ prefixPath (page_with_prefix p) path
     = p +:+ (if ToBoolean path then ToString path else "").
Proof.
  intros Hp. rewrite !prefixPath_of_content, endsWith_slash_snoc, slice_drop_last_snoc, Hp.
  split; reflexivity.
Qed.

Lemma prefixPath_trailing_slash_witness :
  endsWith "/tube" "/" = false
  /\ prefixPath (page_with_prefix "/tube/") (JsString "/watch/7") = "/tube/watch/7"
  /\ prefixPath (page_with_prefix "/tube") (JsString "/watch/7") = "/tube/watch/7".
Proof.
  assert (H : endsWith "/tube" "/" = false) by reflexivity.
  split; [exact H|].
  destruct (prefixPath_trailing_slash "/tube" (JsString "/watch/7") H) as [H1 H2].
  split; [exact (eq_trans H1 H2)|exact H2].
Defined.

(** A page served from the root (no prefix meta, one without content, an
    empty one or the single slash) gets its paths unchanged, and the
    footer's [getPrefix] is what [prefixPath] puts in front of a path on
    every page. *)
Theorem prefixPath_root_and_getPrefix (document : Document) (path : JsValue) :
  prefixPath document path
  = getPrefix document +:+ (if ToBoolean path then ToString path else "")
  /\ (metas document !! "bt-prefix" = None
      \/ metas document !! "bt-prefix" = Some None
      \/ metas document !! "bt-prefix" = Some (Some "")
      \/ metas document !! "bt-prefix" = Some (Some "/") ->
      getPrefix document = ""
      /\ prefixPath document path = (if ToBoolean path then ToString path else "")).
Proof.
  assert (H : prefixPath document path
              = getPrefix document +:+ (if ToBoolean path then ToString path else "")).
  { unfold prefixPath, getPrefix, getMeta.
    destruct (ToBoolean path); cbn [negb]; [reflexivity|].
    rewrite app_empty_r. reflexivity. }
  split; [exact H|]. intros Hroot.
  assert (Hp : getPrefix document = "").
  { unfold getPrefix. destruct Hroot as [->|[->|[->| ->]]]; reflexivity. }
  split; [exact Hp|]. rewrite H, Hp. reflexivity.
Qed.

(** ** Formatting a count *)

Lemma Number_toString_not_dashes (x : Number) : Number_toString x <> "--".
Proof.
  destruct x as [|[]|neg|neg s n]; try discriminate. intros E.
  assert (Hdigit : forall r, decimal s +:+ r <> String "-" "" /\ decimal s +:+ r <> "--"
                             /\ decimal s +:+ r <> "").
  { intros r. pose proof (decimal_digits s) as Hd. pose proof (decimal_not_empty s) as Hne.
    destruct (decimal s) as [|c ds]; [contradiction|].
    cbn [string_forall] in Hd. apply andb_prop in Hd as [Hc _]. rewrite app_cons.
    repeat split; intros [= -> _]; discriminate. }
  destruct (Z.leb_spec (num_digits s) n) as [Hk|Hk];
    [destruct (Z.leb_spec n 21) as [Hn|Hn]|].
  - destruct (Number_toString_plain neg s n (conj Hk Hn)) as [Hstr _].
    rewrite Hstr in E. destruct (Hdigit (repeat_char "0" (Z.to_nat (n - num_digits s))))
      as (H1 & H2 & H3).
    destruct neg; cbn [sign_string] in E.
    + rewrite app_cons, app_empty_l in E. injection E as E. contradiction.
    + rewrite app_empty_l in E. contradiction.
  - pose proof (Number_toString_marked neg s n ltac:(lia)) as H.
    rewrite E in H. discriminate.
  - pose proof (Number_toString_marked neg s n ltac:(lia)) as H.
    rewrite E in H. discriminate.
Qed.

Lemma strip_zeros_value (fuel : nat) (v : N) :
  exists j : nat,
    v = (strip_zeros fuel v * 10 ^ N.of_nat j)%N
    /\ decimal v = decimal (strip_zeros fuel v) +:+ repeat_char "0" j.
Proof.
  revert v. induction fuel as [|fuel IH]; intros v.
  - exists 0%nat. simpl. rewrite app_empty_r. split; [lia|reflexivity].
  - simpl. destruct (N.ltb_spec 0 v) as [Hpos|Hz]; simpl;
      [|exists 0%nat; simpl; rewrite app_empty_r; split; [lia|reflexivity]].
    destruct (N.eqb_spec (v mod 10) 0) as [Hmod|Hmod];
      [|exists 0%nat; simpl; rewrite app_empty_r; split; [lia|reflexivity]].
    destruct (IH (v / 10)%N) as (j & Hval & Hdec). exists (S j).
    assert (Hv : v = (10 * (v / 10))%N) by (pose proof (N.div_mod' v 10); lia).
    split.
    + rewrite Nat2N.inj_succ, N.pow_succ_r'. rewrite Hv at 1. rewrite Hval at 1. lia.
    + rewrite Hv at 1. rewrite decimal_mul10 by lia.
      rewrite Hdec, app_assoc3, repeat_char_snoc. reflexivity.
Qed.

(** The Number of a positive integer below [2^53], as a decimal. *)
Lemma Number_of_integer_decimal (neg : bool) (v : N) :
  (0 < v < 2 ^ 53)%N ->
  exists s n,
    Number_of_integer neg v = Finite neg s n
    /\ (0 < s)%N /\ (num_digits s <= n)%Z
    /\ Z.of_N v = (Z.of_N s * 10 ^ (n - num_digits s))%Z.
Proof.
  intros [Hpos Hv]. unfold Number_of_integer.
  destruct (N.eqb_spec v 0) as [->|_]; [lia|].
  destruct (N.ltb_spec v (2 ^ 53)) as [_|]; [|lia].
  exists (significand v), (num_digits v). split; [reflexivity|].
  destruct (strip_zeros_value (S (N.to_nat (N.log2 v))) v) as (j & Hval & Hdec).
  fold (significand v) in Hval, Hdec.
  assert (Hn : num_digits v = (num_digits (significand v) + Z.of_nat j)%Z).
  { unfold num_digits. rewrite Hdec at 1.
    rewrite string_length_app, length_repeat_char. lia. }
  split; [|split].
  - destruct (significand v); [lia|lia].
  - lia.
  - rewrite Hn. replace (num_digits (significand v) + Z.of_nat j - num_digits (significand v))%Z
      with (Z.of_nat j) by lia.
    rewrite Hval at 1. rewrite N2Z.inj_mul, N2Z.inj_pow, nat_N_Z. reflexivity.
Qed.

(** Comparing an integer with a power of ten. *)
Lemma Number_ge_pow10 (neg : bool) (s : N) (n j : Z) :
  (0 < s)%N -> (num_digits s <= n)%Z -> (0 <= j)%Z ->
  Number_ge (Finite neg s n) (Finite false 1 (j + 1))
  = if neg then false else (10 ^ j <=? Z.of_N s * 10 ^ (n - num_digits s))%Z.
Proof.
  intros Hs Hk Hj. unfold Number_ge, Number_exponent, Number_significand.
  change (num_digits 1) with 1%Z.
  replace (j + 1 - 1)%Z with j by lia.
  set (e := (n - num_digits s)%Z). set (m := Z.min e j).
  assert (He : (0 <= e)%Z) by (unfold e; lia).
  assert (Hm : (0 <= m <= e /\ m <= j)%Z) by (unfold m; lia).
  assert (Hpow : forall a, (0 <= a)%Z -> (0 < 10 ^ a)%Z) by (intros; apply Z.pow_pos_nonneg; lia).
  assert (He' : (10 ^ e = 10 ^ (e - m) * 10 ^ m)%Z)
    by (rewrite <- Z.pow_add_r by lia; f_equal; lia).
  assert (Hj' : (10 ^ j = 10 ^ (j - m) * 10 ^ m)%Z)
    by (rewrite <- Z.pow_add_r by lia; f_equal; lia).
  pose proof (Hpow m ltac:(lia)) as Pm. pose proof (Hpow (e - m)%Z ltac:(lia)) as Pe.
  pose proof (Hpow (j - m)%Z ltac:(lia)) as Pj.
  destruct neg.
  - apply Z.leb_gt. nia.
  - rewrite He', Hj'. change (Z.of_N 1) with 1%Z.
    apply Bool.eq_iff_eq_true. rewrite !Z.leb_le. split; nia.
Qed.

Section FooterCounterProperties.

Variable StringToNumber : string -> Number.
Variable div_toFixed1 : Number -> Number -> string.

(** [fmt] shows "--" for what is no finite number (undefined, NaN, the
    infinities, a string that reads as none) and for nothing else. *)
Theorem fmt_dashes_iff_not_finite (n : JsValue) :
  fmt StringToNumber div_toFixed1 n = "--"
  <-> Number_isFinite (ToNumber StringToNumber n) = false.
Proof.
  unfold fmt. destruct (Number_isFinite (ToNumber StringToNumber n)); cbn [negb].
  - split; [|discriminate]. intros E. exfalso.
    assert (Hsuffix : forall a c, a +:+ String c "" = "--" -> c = "-"%char).
    { intros [|a1 [|a2 [|a3 a]]] c; rewrite ?app_cons, ?app_empty_l; intros [= ]; subst;
        try reflexivity. }
    destruct (Number_ge _ (Finite false 1 7)); [apply Hsuffix in E; discriminate|].
    destruct (Number_ge _ (Finite false 1 4)); [apply Hsuffix in E; discriminate|].
    apply (Number_toString_not_dashes _ E).
  - split; reflexivity.
Qed.

(** A count that is an integer below 1000, or a negative integer, is shown
    in full, digit for digit, with no suffix (counts below [2^53]). *)
Theorem fmt_small_integer (neg : bool) (v : N) :
  (v < 2 ^ 53)%N -> neg = true \/ (v < 1000)%N ->
  fmt StringToNumber div_toFixed1 (JsNumber (Number_of_integer neg v))
  = integer_string neg v.
Proof.
  intros Hv Hsmall. rewrite <- (Number_toString_of_integer neg v Hv).
  unfold fmt. cbn [ToNumber].
  destruct (N.eqb_spec v 0) as [->|Hnz]; [destruct neg; reflexivity|].
  destruct (Number_of_integer_decimal neg v ltac:(lia)) as (s & n & -> & Hs & Hk & Hval).
  cbn [Number_isFinite negb].
  pose proof (Number_ge_pow10 neg s n 6 Hs Hk ltac:(lia)) as H6.
  pose proof (Number_ge_pow10 neg s n 3 Hs Hk ltac:(lia)) as H3.
  change (6 + 1)%Z with 7%Z in H6. change (3 + 1)%Z with 4%Z in H3.
  rewrite H6, H3.
  rewrite <- Hval.
  assert (Hfloor : Math_floor (Finite neg s n) = Finite neg s n).
  { unfold Math_floor. destruct (Z.leb_spec (num_digits s) n); [reflexivity|lia]. }
  rewrite Hfloor. destruct neg; [reflexivity|].
  destruct Hsmall as [Hneg|Hlt]; [discriminate|].
  destruct (Z.leb_spec (10 ^ 6) (Z.of_N v)); [lia|].
  destruct (Z.leb_spec (10 ^ 3) (Z.of_N v)); [lia|]. reflexivity.
Qed.

End FooterCounterProperties.

Lemma fmt_small_integer_witness :
  (42 < 2 ^ 53)%N
  /\ fmt (fun _ => NaN) (fun _ _ => "") (JsNumber (Finite false 42 2)) = "42".
Proof.
  split; [reflexivity|].
  exact (fmt_small_integer (fun _ => NaN) (fun _ _ => "") false 42 eq_refl
           (or_intror eq_refl)).
Defined.

(** * Concrete runs of the further properties *)

Lemma hexToBytes_wellformed_witness :
  Nat.even (String.length "0aFf") = true
  /\ exists bs,
       _hexToBytes (JsString (" " +:+ ("0X" +:+ "0aFf") +:+ " ")) = Ok bs
       /\ _bytesToHex bs = "0aff".
Proof.
  split; [reflexivity|].
  destruct (hexToBytes_wellformed " " "0X" "0aFf" " " eq_refl eq_refl
              (or_intror (or_intror eq_refl)) eq_refl eq_refl) as (bs & Hbs & _ & Hprint).
  exists bs. split; [exact Hbs|exact Hprint].
Defined.

Lemma canonicalTxJson_injective_witness :
  _canonicalTxJson JsNull (JsString "RTCabc") (Zero true) JsUndefined (JsString "7")
  = _canonicalTxJson (JsString "") (JsString "RTCabc") (Zero false) (JsBoolean false)
      (JsNumber (Finite false 7 1))
  /\ _pyFloatRepr (Zero true) = _pyFloatRepr (Zero false).
Proof.
  assert (H1 : _canonicalTxJson JsNull (JsString "RTCabc") (Zero true) JsUndefined
                 (JsString "7") = Ok (wire_shape "0.0" "" "" "7" "RTCabc"))
    by (vm_compute; reflexivity).
  assert (H2 : _canonicalTxJson (JsString "") (JsString "RTCabc") (Zero false)
                 (JsBoolean false) (JsNumber (Finite false 7 1))
               = Ok (wire_shape "0.0" "" "" "7" "RTCabc"))
    by (vm_compute; reflexivity).
  split; [rewrite H1, H2; reflexivity|].
  exact (proj1 (canonicalTxJson_injective _ _ _ _ _ _ _ _ _ _ _ H1 H2)).
Defined.

Lemma pyFloatRepr_float_literal_witness :
  _pyFloatRepr (Finite false 1 3) = Ok "100.0"
  /\ has_char "." "100.0" || has_char "e" "100.0" = true.
Proof.
  assert (H : _pyFloatRepr (Finite false 1 3) = Ok "100.0") by (vm_compute; reflexivity).
  split; [exact H|]. exact (proj2 (pyFloatRepr_float_literal _ _ H)).
Defined.

Lemma other_keys_untouched_witness :
  "theme" <> STORAGE_SEED
  /\ localStorage (snd (perform true stub_fromSeed stub_SHA256
                          (setItem empty_world "theme" "dark")
                          (OpImport (JsString seed_01)))) !! "theme"
     = Some "dark".
Proof.
  assert (Hne : "theme" <> STORAGE_SEED) by discriminate.
  split; [exact Hne|].
  rewrite (proj1 (other_keys_untouched true stub_fromSeed stub_SHA256
                    (setItem empty_world "theme" "dark") (OpImport (JsString seed_01))
                    "theme" Hne)).
  vm_compute. reflexivity.
Defined.

Lemma stub_sizes :
  (forall seed, length (KeyPair.publicKey (stub_fromSeed32 seed)) = 32%nat)
  /\ (forall msg key, length (stub_detached msg key) = 64%nat)
  /\ (forall m, length (stub_SHA256 m) = 32%nat).
Proof.
  split; [|split].
  - intros seed. unfold stub_fromSeed32. cbn [KeyPair.publicKey].
    rewrite length_firstn, length_app, repeat_length. lia.
  - intros msg key. unfold stub_detached.
    rewrite length_firstn, !length_app, repeat_length. lia.
  - intros m. unfold stub_SHA256. rewrite length_firstn, length_app, repeat_length. lia.
Defined.

Lemma payload_sizes_witness :
  exists p,
    signTransfer true stub_fromSeed32 stub_detached stub_SHA256 unlocked_world
      (JsString "RTCabc") (Finite false 25 1) (JsString "hi")
      (JsNumber (Finite false 1 1)) = Ok p
    /\ String.length (Payload.signature p) = 128%nat
    /\ String.length (Payload.from_address p) = 43%nat.
Proof.
  exists_result (signTransfer true stub_fromSeed32 stub_detached stub_SHA256 unlocked_world
                   (JsString "RTCabc") (Finite false 25 1) (JsString "hi")
                   (JsNumber (Finite false 1 1))).
  match goal with |- ?H /\ _ => assert (Hrun : H) by (vm_compute; reflexivity) end.
  split; [exact Hrun|].
  destruct stub_sizes as (Hpk & Hsig & Hsha).
  destruct (payload_sizes _ _ _ _ _ _ _ _ _ _ Hpk Hsig Hsha Hrun) as (_ & H1 & _ & H2).
  split; assumption.
Defined.

Lemma generate_then_get_witness :
  exists wallet,
    fst (generateWallet true stub_fromSeed stub_SHA256 empty_world) = Ok wallet
    /\ getWallet true stub_fromSeed stub_SHA256
         (snd (generateWallet true stub_fromSeed stub_SHA256 empty_world))
       = Ok (Some wallet).
Proof.
  destruct (generate_then_get true stub_fromSeed stub_SHA256 empty_world eq_refl)
    as (wallet & H1 & H2 & _).
  exists wallet. split; assumption.
Defined.

Lemma store_never_corrupt_witness :
  slot_ok empty_world
  /\ slot_ok (apply_ops true stub_fromSeed stub_SHA256 empty_world
                [DoImport (JsString seed_01); DoImport (JsString "zz"); DoGenerate;
                 DoClear; DoImport (JsString seed_0g)]).
Proof.
  assert (H : slot_ok empty_world) by exact I.
  split; [exact H|].
  exact (proj1 (store_never_corrupt true stub_fromSeed stub_SHA256 empty_world _ H)).
Defined.
